(** * libsnapshot: the COW reader and the snapuserd control client

    A shallow embedding of [fs_mgr/libsnapshot/cow_reader.cpp] and
    [fs_mgr/libsnapshot/snapuserd_client.cpp].

    - Unsigned 64-bit quantities ([uint64_t], [size_t]) are [Z] with the
      wrap-around written out ([wrap64]); [off_t] and [ssize_t] are signed.
    - The file behind the descriptor is explicit state: its bytes, the file
      position, and the log of system calls issued on it.
    - Every [return false] / [return nullptr] of the reader is tagged with
      the site it comes from (named after its log message).
    - The client runs against an abstract socket environment; a scripted
      daemon is supplied for the concrete runs. *)

From Stdlib Require Import ZArith List String Ascii Bool Lia.
From Stdlib.Strings Require Import Byte.
From Equations.Prop Require Import Equations Logic.
Import ListNotations.
Local Open Scope string_scope.
Local Open Scope list_scope.
Local Open Scope Z_scope.

(* ===================================================================== *)
(** * Part I: machine integers and bytes                                  *)
(* ===================================================================== *)

Definition two64 : Z := 2 ^ 64.
Definition two63 : Z := 2 ^ 63.

(** Arithmetic on [uint64_t] wraps modulo 2^64. *)
Definition wrap64 (x : Z) : Z := x mod two64.

(** Implicit conversion of a [uint64_t] argument to [off_t]. *)
Definition to_off_t (x : Z) : Z := if x <? two63 then x else x - two64.

Definition byte_val (b : byte) : Z := Z.of_N (Byte.to_N b).

Definition byte_of_Z (z : Z) : byte :=
  match Byte.of_N (Z.to_N (z mod 256)) with
  | Some b => b
  | None => x00
  end.

(** Little-endian value of a run of bytes. *)
Fixpoint le_decode (bs : list byte) : Z :=
  match bs with
  | [] => 0
  | b :: rest => byte_val b + 256 * le_decode rest
  end.

Fixpoint le_encode (n : nat) (z : Z) : list byte :=
  match n with
  | O => []
  | S k => byte_of_Z z :: le_encode k (z / 256)
  end.

(** [len] bytes starting at offset [off]. *)
Definition slice (off len : Z) (bs : list byte) : list byte :=
  firstn (Z.to_nat len) (skipn (Z.to_nat off) bs).

Fixpoint bytes_eqb (a b : list byte) : bool :=
  match a, b with
  | [], [] => true
  | x :: a', y :: b' => Byte.eqb x y && bytes_eqb a' b'
  | _, _ => false
  end.

(** [memcmp(a, b, n) != 0] on two [n]-byte arrays. *)
Definition memcmp_ne (a b : list byte) (n : Z) : bool :=
  negb (bytes_eqb (slice 0 n a) (slice 0 n b)).

(** [memset(buf, 0, n)] on a fresh [n]-byte array. *)
Definition zero_bytes (n : nat) : list byte := repeat x00 n.

(* ===================================================================== *)
(** * Part II: the byte source                                            *)
(* ===================================================================== *)

(** The file behind the descriptor.  [f_chunk] is the most bytes one
    [read(2)] call delivers (short reads are legal); [f_seekable] and
    [f_readable] say whether [lseek] and [read] succeed at all. *)
Record File := mkFile {
  f_data : list byte;
  f_seekable : bool;
  f_readable : bool;
  f_chunk : Z
}.

Inductive Whence := SEEK_SET | SEEK_END.

Inductive SysCall :=
| SysLseek (off : Z) (whence : Whence)
| SysRead (pos len : Z).

(** An open descriptor: the file, the file position, and the calls issued
    so far (most recent first). *)
Record Fd := mkFd {
  fd_file : File;
  fd_pos : Z;
  fd_log : list SysCall
}.

Definition file_size (f : File) : Z := Z.of_nat (List.length (f_data f)).

Definition open_file (f : File) : Fd := mkFd f 0 [].

(** The descriptor [-1] of a default-constructed reader: every call fails. *)
Definition bad_fd : Fd := open_file (mkFile [] false false 0).

(** [lseek(fd, off, whence)]: the new position, or [-1]. *)
Definition sys_lseek (fd : Fd) (off : Z) (whence : Whence) : Z * Fd :=
  let fd' := mkFd (fd_file fd) (fd_pos fd) (SysLseek off whence :: fd_log fd) in
  let target := match whence with
                | SEEK_SET => off
                | SEEK_END => file_size (fd_file fd) + off
                end in
  if negb (f_seekable (fd_file fd)) then (-1, fd')
  else if (target <? 0) || (two63 <=? target) then (-1, fd')
  else (target, mkFd (fd_file fd) target (fd_log fd')).

(** [TEMP_FAILURE_RETRY(read(fd, buf, len))]: the count and the bytes
    delivered, or [-1]. *)
Definition sys_read (fd : Fd) (len : Z) : Z * list byte * Fd :=
  let log' := SysRead (fd_pos fd) len :: fd_log fd in
  if negb (f_readable (fd_file fd)) then
    (-1, [], mkFd (fd_file fd) (fd_pos fd) log')
  else
    let avail := Z.max 0 (file_size (fd_file fd) - fd_pos fd) in
    let n := Z.max 0 (Z.min len (Z.min (f_chunk (fd_file fd)) avail)) in
    (n, slice (fd_pos fd) n (f_data (fd_file fd)),
     mkFd (fd_file fd) (fd_pos fd + n) log').

(** [android::base::ReadFully] (libbase): read until [count] bytes have
    arrived; a read that returns [<= 0] makes it fail.  Every round that
    continues has consumed at least one byte, so [count] rounds suffice. *)
Fixpoint ReadFully_loop (fuel : nat) (fd : Fd) (remaining : Z) (acc : list byte)
  : bool * list byte * Fd :=
  if remaining <=? 0 then (true, acc, fd)
  else match fuel with
       | O => (false, acc, fd)
       | S k =>
         let '(n, bs, fd') := sys_read fd remaining in
         if n <=? 0 then (false, acc, fd')
         else ReadFully_loop k fd' (remaining - n) (acc ++ bs)
       end.

Definition ReadFully (fd : Fd) (count : Z) : bool * list byte * Fd :=
  ReadFully_loop (Z.to_nat count) fd count [].

(* ===================================================================== *)
(** * Part III: the COW format                                            *)
(* ===================================================================== *)

(** Constants of [cow_format.h]. *)
Class CowConstants := {
  kCowMagicNumber : Z;
  kCowVersionMajor : Z;
  kCowVersionMinor : Z
}.

Record CowHeader := mkCowHeader {
  magic : Z;
  major_version : Z;
  minor_version : Z;
  header_size : Z;
  block_size : Z;
  ops_offset : Z;
  ops_size : Z;
  header_checksum : list byte;
  ops_checksum : list byte
}.

(** Modelled from the spec: the declaration of [struct CowHeader] is in
    [cow_format.h], which is missing here.  Fields in the order and widths
    of the data model, packed and little-endian: magic (4), major_version
    (2), minor_version (2), header_size (4), block_size (4), ops_offset (8),
    ops_size (8), header_checksum (32), ops_checksum (32). *)
Definition sizeof_CowHeader : Z := 96.

Definition decode_header (bs : list byte) : CowHeader :=
  mkCowHeader
    (le_decode (slice 0 4 bs))
    (le_decode (slice 4 2 bs))
    (le_decode (slice 6 2 bs))
    (le_decode (slice 8 4 bs))
    (le_decode (slice 12 4 bs))
    (le_decode (slice 16 8 bs))
    (le_decode (slice 24 8 bs))
    (slice 32 32 bs)
    (slice 64 32 bs).

Definition encode_header (h : CowHeader) : list byte :=
  le_encode 4 (magic h) ++ le_encode 2 (major_version h) ++
  le_encode 2 (minor_version h) ++ le_encode 4 (header_size h) ++
  le_encode 4 (block_size h) ++ le_encode 8 (ops_offset h) ++
  le_encode 8 (ops_size h) ++ header_checksum h ++ ops_checksum h.

(** The value of a default-constructed [header_()]. *)
Definition zero_header : CowHeader :=
  mkCowHeader 0 0 0 0 0 0 0 (zero_bytes 32) (zero_bytes 32).

(** The struct [h] after a read has stored the bytes [bs] over its start:
    what [ReadFully(fd, &header_, sizeof(header_))] leaves in [header_]
    when only [bs] arrived. *)
Definition overwrite_header (h : CowHeader) (bs : list byte) : CowHeader :=
  decode_header (bs ++ skipn (List.length bs) (encode_header h)).

Record CowOperation := mkCowOperation {
  op_type : Z;
  compression : Z;
  data_length : Z;
  new_block : Z;
  source : Z
}.

(** Modelled from the spec: the declaration of [struct CowOperation] is in
    [cow_format.h], which is missing here.  Packed and little-endian:
    type (1), compression (1), _pad (2), data_length (8), new_block (8),
    source (8). *)
Definition sizeof_CowOperation : Z := 28.

Definition decode_op (bs : list byte) : CowOperation :=
  mkCowOperation
    (le_decode (slice 0 1 bs))
    (le_decode (slice 1 1 bs))
    (le_decode (slice 4 8 bs))
    (le_decode (slice 12 8 bs))
    (le_decode (slice 20 8 bs)).

Definition encode_op (o : CowOperation) : list byte :=
  le_encode 1 (op_type o) ++ le_encode 1 (compression o) ++ le_encode 2 0 ++
  le_encode 8 (data_length o) ++ le_encode 8 (new_block o) ++
  le_encode 8 (source o).

(* ===================================================================== *)
(** * Part IV: CowReader                                                  *)
(* ===================================================================== *)

(** The stub of cow_reader.cpp: its body is compiled out, so the output
    buffer comes back as it went in. *)
Definition SHA256 (data : list byte) (length : Z) (out : list byte) : list byte :=
  out.

(** The failing exits of the reader, one per log message. *)
Inductive ErrSite :=
| LseekEndFailed          (* "lseek end failed" *)
| LseekHeaderFailed       (* "lseek header failed" *)
| ReadHeaderFailed        (* "read header failed" *)
| OpsOffsetTooLarge       (* "ops offset ... larger than fd size ..." *)
| OpsSizeTooLarge         (* "ops size ... is too large" *)
| HeaderMagicCorrupted    (* "Header Magic corrupted" *)
| HeaderSizeUnknown       (* "Header size unknown" *)
| HeaderVersionMismatch   (* "Header version mismatch" *)
| HeaderChecksumInvalid   (* "header checksum is invalid" *)
| LseekOpsFailed          (* "lseek ops failed" *)
| ReadOpsFailed           (* "read ops failed" *)
| OpsChecksumMismatch     (* "ops checksum does not match" *)
| InvalidDataOffset       (* "invalid data offset" *)
| LseekRawFailed          (* "lseek to read raw bytes failed" *)
| ReadFailed.             (* "read failed" *)

Inductive ErrorKind :=
| IoError | RangeError | BadMagic | HeaderSizeMismatch
| UnsupportedVersion | ChecksumMismatch.

(** The reader itself returns [false] or [nullptr]; the kinds are the error
    taxonomy of the specification, and each failing exit is given the kind
    of what it checks. *)
Definition error_kind (e : ErrSite) : ErrorKind :=
  match e with
  | LseekEndFailed | LseekHeaderFailed | ReadHeaderFailed
  | LseekOpsFailed | ReadOpsFailed | LseekRawFailed | ReadFailed => IoError
  | OpsOffsetTooLarge | OpsSizeTooLarge | InvalidDataOffset => RangeError
  | HeaderMagicCorrupted => BadMagic
  | HeaderSizeUnknown => HeaderSizeMismatch
  | HeaderVersionMismatch => UnsupportedVersion
  | HeaderChecksumInvalid | OpsChecksumMismatch => ChecksumMismatch
  end.

Inductive Status := Success | Failure (e : ErrSite).

Record CowReader := mkCowReader {
  fd_ : Fd;
  header_ : CowHeader;
  fd_size_ : Z
}.

(** [CowReader::CowReader()]. *)
Definition CowReader_new : CowReader := mkCowReader bad_fd zero_header 0.

Section Reader.
Context {consts : CowConstants}.

(** [CowReader::Parse(borrowed_fd)].  When [ReadFully] fails, [header_]
    holds the bytes that did arrive over what it held before. *)
Definition Parse (self : CowReader) (fd : Fd) : Status * CowReader :=
  let '(pos, fd1) := sys_lseek fd 0 SEEK_END in
  if pos <? 0 then (Failure LseekEndFailed, mkCowReader fd1 (header_ self) (fd_size_ self))
  else
    let size := pos in
    let '(r, fd2) := sys_lseek fd1 0 SEEK_SET in
    if r <? 0 then (Failure LseekHeaderFailed, mkCowReader fd2 (header_ self) size)
    else
      let '(ok, bs, fd3) := ReadFully fd2 sizeof_CowHeader in
      if negb ok then
        (Failure ReadHeaderFailed,
         mkCowReader fd3 (overwrite_header (header_ self) bs) size)
      else
        let h := decode_header bs in
        let self' := mkCowReader fd3 h size in
        (* Validity check the ops range. *)
        if size <=? ops_offset h then (Failure OpsOffsetTooLarge, self')
        else if wrap64 (size - ops_offset h) <? ops_size h then
          (Failure OpsSizeTooLarge, self')
        else if negb (magic h =? kCowMagicNumber) then
          (Failure HeaderMagicCorrupted, self')
        else if negb (header_size h =? sizeof_CowHeader) then
          (Failure HeaderSizeUnknown, self')
        else if negb (major_version h =? kCowVersionMajor)
                || negb (minor_version h =? kCowVersionMinor) then
          (Failure HeaderVersionMismatch, self')
        else
          let tmp := encode_header
                       (mkCowHeader (magic h) (major_version h) (minor_version h)
                          (header_size h) (block_size h) (ops_offset h)
                          (ops_size h) (zero_bytes 32) (ops_checksum h)) in
          let header_csum := SHA256 tmp sizeof_CowHeader (zero_bytes 32) in
          if memcmp_ne header_csum (header_checksum h) 32 then
            (Failure HeaderChecksumInvalid, self')
          else (Success, self').

(** [CowReader::GetHeader]. *)
Definition GetHeader (self : CowReader) : bool * CowHeader := (true, header_ self).

(** [CowOpIter]: [pos_] and [end_] are offsets into the owned buffer. *)
Record CowOpIter := mkCowOpIter {
  ops_ : list byte;
  pos_ : Z;
  end_ : Z;
  done_ : bool
}.

Definition HasNext (it : CowOpIter) : bool :=
  (pos_ it <? end_ it) && (sizeof_CowOperation <=? wrap64 (end_ it - pos_ it)).

Definition CowOpIter_new (ops : list byte) (len : Z) : CowOpIter :=
  let it := mkCowOpIter ops 0 (0 + len) false in
  mkCowOpIter ops 0 (0 + len) (negb (HasNext it)).

Definition Done (it : CowOpIter) : bool := done_ it.

(** [CowOpIter::Next]; [None] is a failed [CHECK]. *)
Definition Next (it : CowOpIter) : option CowOpIter :=
  if Done it then None
  else
    let it' := mkCowOpIter (ops_ it) (pos_ it + sizeof_CowOperation) (end_ it) (done_ it) in
    Some (if negb (HasNext it') then mkCowOpIter (ops_ it') (pos_ it') (end_ it') true
          else it').

(** [CowOpIter::Get]: the record overlaid on the bytes at [pos_]; [None] is
    a failed [CHECK]. *)
Definition Get (it : CowOpIter) : option CowOperation :=
  if Done it then None
  else if negb (HasNext it) then None
  else Some (decode_op (slice (pos_ it) sizeof_CowOperation (ops_ it))).

(** [CowReader::GetOpIter].  The allocation of the buffer is taken to
    succeed. *)
Definition GetOpIter (self : CowReader) : (ErrSite + CowOpIter) * CowReader :=
  let h := header_ self in
  let '(r, fd1) := sys_lseek (fd_ self) (to_off_t (ops_offset h)) SEEK_SET in
  if r <? 0 then (inl LseekOpsFailed, mkCowReader fd1 h (fd_size_ self))
  else
    let '(ok, ops_buffer, fd2) := ReadFully fd1 (ops_size h) in
    let self' := mkCowReader fd2 h (fd_size_ self) in
    if negb ok then (inl ReadOpsFailed, self')
    else
      let csum := SHA256 ops_buffer (ops_size h) (zero_bytes 32) in
      if memcmp_ne csum (ops_checksum h) 32 then (inl OpsChecksumMismatch, self')
      else (inr (CowOpIter_new ops_buffer (ops_size h)), self').

(** What [GetRawBytes] hands back on success: the count stored through
    [read] and the bytes placed in [buffer]. *)
Record RawRead := mkRawRead {
  raw_read : Z;
  raw_buffer : list byte
}.

(** [CowReader::GetRawBytes]. *)
Definition GetRawBytes (self : CowReader) (offset len : Z)
  : (ErrSite + RawRead) * CowReader :=
  let h := header_ self in
  (* Validate the offset, taking care to acknowledge possible overflow of
     offset+len. *)
  if (offset <? sizeof_CowHeader) || (ops_offset h <=? offset)
     || (fd_size_ self <=? len) || (ops_offset h <? wrap64 (offset + len)) then
    (inl InvalidDataOffset, self)
  else
    let '(r, fd1) := sys_lseek (fd_ self) (to_off_t offset) SEEK_SET in
    if r <? 0 then (inl LseekRawFailed, mkCowReader fd1 h (fd_size_ self))
    else
      let '(rv, bs, fd2) := sys_read fd1 len in
      let self' := mkCowReader fd2 h (fd_size_ self) in
      if rv <? 0 then (inl ReadFailed, self')
      else (inr (mkRawRead rv bs), self').

(** [CowDataStream]: a view of [data_length_] bytes at [offset_]. *)
Record CowDataStream := mkCowDataStream {
  offset_ : Z;
  data_length_ : Z;
  remaining_ : Z
}.

Definition CowDataStream_new (offset data_length : Z) : CowDataStream :=
  mkCowDataStream offset data_length data_length.

(** [CowDataStream::Read]. *)
Definition CowDataStream_Read (st : CowDataStream) (reader : CowReader) (length : Z)
  : (ErrSite + RawRead) * CowDataStream * CowReader :=
  let to_read := Z.min length (remaining_ st) in
  if to_read =? 0 then (inr (mkRawRead 0 []), st, reader)
  else
    match GetRawBytes reader (offset_ st) to_read with
    | (inl e, reader') => (inl e, st, reader')
    | (inr rd, reader') =>
      (inr rd,
       mkCowDataStream (wrap64 (offset_ st + raw_read rd)) (data_length_ st)
                       (wrap64 (remaining_ st - raw_read rd)),
       reader')
    end.

End Reader.

(** What is left to walk: nothing once done, else the distance to [end_]. *)
Definition iter_measure (it : CowOpIter) : nat :=
  if done_ it then O else S (Z.to_nat (end_ it - pos_ it)).

(** The way a caller walks an iterator:
    [while (!it->Done()) { use(it->Get()); it->Next(); }].
    [None] is a failed [CHECK] on the way. *)
Equations? drain (it : CowOpIter) : option (list CowOperation)
  by wf (iter_measure it) lt :=
  drain it with inspect (Done it) := {
    | exist _ true _ => Some [];
    | exist _ false _ with inspect (Get it) := {
      | exist _ None _ => None;
      | exist _ (Some op) _ with inspect (Next it) := {
        | exist _ None _ => None;
        | exist _ (Some it') Hn with drain it' := {
          | None => None;
          | Some rest => Some (op :: rest) } } } }.
Proof.
  revert Hn. unfold Next, Done, iter_measure.
  destruct (done_ it) eqn:Hd; [discriminate|].
  intros H. injection H as <-.
  destruct (negb _) eqn:Hneg; cbn [done_ pos_ end_].
  - lia.
  - apply negb_false_iff in Hneg. unfold HasNext in Hneg.
    cbn [pos_ end_] in Hneg. apply andb_true_iff in Hneg as [Hlt _].
    apply Z.ltb_lt in Hlt. unfold sizeof_CowOperation in *. lia.
Qed.

(* ===================================================================== *)
(** * Part V: the digest the stub stands in for                           *)
(* ===================================================================== *)

(** SHA-256 (FIPS 180-4), the function the compiled-out body of [SHA256]
    calls ([SHA256_Init] / [SHA256_Update] / [SHA256_Final]).  It is the
    digest the checksum claims speak of; the reader never runs it. *)
Module SHA256Ref.

Definition w32 (x : Z) : Z := x mod 2 ^ 32.
Definition rotr (n x : Z) : Z := Z.lor (Z.shiftr x n) (w32 (Z.shiftl x (32 - n))).
Definition shr (n x : Z) : Z := Z.shiftr x n.
Definition xor3 (a b c : Z) : Z := Z.lxor a (Z.lxor b c).

Definition Ch (x y z : Z) : Z :=
  Z.lxor (Z.land x y) (Z.land (Z.lxor x (2 ^ 32 - 1)) z).
Definition Maj (x y z : Z) : Z :=
  xor3 (Z.land x y) (Z.land x z) (Z.land y z).
Definition Sigma0 (x : Z) : Z := xor3 (rotr 2 x) (rotr 13 x) (rotr 22 x).
Definition Sigma1 (x : Z) : Z := xor3 (rotr 6 x) (rotr 11 x) (rotr 25 x).
Definition sigma0 (x : Z) : Z := xor3 (rotr 7 x) (rotr 18 x) (shr 3 x).
Definition sigma1 (x : Z) : Z := xor3 (rotr 17 x) (rotr 19 x) (shr 10 x).

(** The first 64 primes. *)
Definition is_prime (n : Z) : bool :=
  forallb (fun d => negb (n mod d =? 0))
          (map Z.of_nat (seq 2 (Z.to_nat n - 2))).

Definition primes : list Z := filter is_prime (map Z.of_nat (seq 2 310)).

(** The integer cube root, one bit at a time from bit [i - 1] down. *)
Fixpoint cube_root_bits (i : nat) (n r : Z) : Z :=
  match i with
  | O => r
  | S j =>
    let c := r + 2 ^ Z.of_nat j in
    cube_root_bits j n (if c * c * c <=? n then c else r)
  end.

(** The round constants: the first 32 bits of the fractional parts of the
    cube roots of the first 64 primes. *)
Definition K : list Z :=
  map (fun p => w32 (cube_root_bits 40 (p * 2 ^ 96) 0)) primes.

(** The initial hash value: the same of the square roots of the first 8
    primes. *)
Definition H0 : list Z :=
  map (fun p => w32 (Z.sqrt (p * 2 ^ 64))) (firstn 8 primes).

(** Big-endian value of a run of byte values. *)
Definition be_word (bs : list Z) : Z := fold_left (fun acc b => acc * 256 + b) bs 0.

Fixpoint be_bytes (n : nat) (x : Z) : list Z :=
  match n with
  | O => []
  | S k => (x / 256 ^ Z.of_nat k) mod 256 :: be_bytes k x
  end.

Fixpoint chunks (count size : nat) (bs : list Z) : list (list Z) :=
  match count with
  | O => []
  | S k => firstn size bs :: chunks k size (skipn size bs)
  end.

(** The message followed by 0x80, zeros, and its bit length on 8 bytes. *)
Definition pad (msg : list Z) : list Z :=
  let len := Z.of_nat (List.length msg) in
  let zeros := Z.to_nat ((55 - len) mod 64) in
  msg ++ [0x80] ++ repeat 0 zeros ++ be_bytes 8 (8 * len).

(** The schedule, most recent word first. *)
Fixpoint schedule (n : nat) (win : list Z) : list Z :=
  match n with
  | O => win
  | S k =>
    let w := w32 (sigma1 (nth 1 win 0) + nth 6 win 0 +
                  sigma0 (nth 14 win 0) + nth 15 win 0) in
    schedule k (w :: win)
  end.

Definition round (st : list Z) (kw : Z * Z) : list Z :=
  match st with
  | [a; b; c; d; e; f; g; h] =>
    let t1 := h + Sigma1 e + Ch e f g + fst kw + snd kw in
    let t2 := Sigma0 a + Maj a b c in
    [w32 (t1 + t2); a; b; c; w32 (d + t1); e; f; g]
  | _ => st
  end.

Definition compress (hs : list Z) (block : list Z) : list Z :=
  let w := rev (schedule 48 (rev (map be_word (chunks 16 4 block)))) in
  let st := fold_left round (combine K w) hs in
  map (fun p => w32 (fst p + snd p)) (combine hs st).

Definition sha256 (msg : list Z) : list Z :=
  let padded := pad msg in
  let blocks := chunks (List.length padded / 64) 64 padded in
  flat_map (be_bytes 4) (fold_left compress blocks H0).

End SHA256Ref.

(** The SHA-256 digest of a run of bytes, as bytes. *)
Definition sha256_digest (bs : list byte) : list byte :=
  map byte_of_Z (SHA256Ref.sha256 (map byte_val bs)).

(* ===================================================================== *)
(** * Part VI: SnapuserdClient                                            *)
(* ===================================================================== *)

(** Constants and accessors of [snapuserd_client.h]. *)
Class ClientConstants := {
  GetSocketNameFirstStage : string;
  GetSocketNameSecondStage : string;
  PACKET_SIZE : Z;
  MAX_CONNECT_RETRY_COUNT : nat
}.

(** The operating system as the client sees it, over a world [W].
    [sys_send] and [sys_recv] stand for the calls wrapped in
    [TEMP_FAILURE_RETRY]; [sys_recv] gives the count and the buffer read as
    a C string; [sys_execv] gives [None] when the image was replaced, and
    the return value when it came back. *)
Class SocketEnv (W : Type) := {
  socket_local_client : string -> W -> Z * W;
  sys_send : Z -> string -> Z -> W -> Z * W;
  sys_select : Z -> W -> Z * W;
  sys_recv : Z -> Z -> W -> Z * string * W;
  sys_close : Z -> W -> W;
  sys_fork : W -> Z * W;
  sys_execv : string -> list string -> W -> option Z * W;
  sleep_for : Z -> W -> W
}.

(** The client object together with the world it runs in. *)
Record Client (W : Type) := mkClient {
  sockfd_ : Z;
  world : W
}.
Arguments mkClient {W}.
Arguments sockfd_ {W}.
Arguments world {W}.

(** How a call ends: it returns, a [CHECK] aborts the process, an index is
    out of range, or [execv] has replaced the process image. *)
Inductive Outcome (A : Type) :=
| Ret (a : A)
| Abort
| OutOfRange
| Replaced.
Arguments Ret {A}.
Arguments Abort {A}.
Arguments OutOfRange {A}.
Arguments Replaced {A}.

Definition M (W A : Type) : Type := Client W -> Outcome A * Client W.

Definition ret {W A} (a : A) : M W A := fun s => (Ret a, s).

Definition bind {W A B} (m : M W A) (k : A -> M W B) : M W B :=
  fun s =>
    match m s with
    | (Ret a, s') => k a s'
    | (Abort, s') => (Abort, s')
    | (OutOfRange, s') => (OutOfRange, s')
    | (Replaced, s') => (Replaced, s')
    end.

Notation "x <- m ;; k" := (bind m (fun x => k))
  (at level 61, m at next level, right associativity).
Notation "m ;;; k" := (bind m (fun _ => k))
  (at level 61, right associativity).

(** [CHECK(cond)]. *)
Definition CHECK {W} (cond : bool) : M W unit :=
  fun s => if cond then (Ret tt, s) else (Abort, s).

(** [str.find(sub)], with [None] for [std::string::npos]. *)
Definition find (str sub : string) : option nat := String.index 0 sub str.

Definition found (r : option nat) : bool :=
  match r with Some _ => true | None => false end.

(** [v[i]] on a [std::vector<std::string>]. *)
Definition vec_at {W} (v : list string) (i : nat) : M W string :=
  fun s => match nth_error v i with
           | Some x => (Ret x, s)
           | None => (OutOfRange, s)
           end.

Section ClientOps.
Context {cfg : ClientConstants} {W : Type} {env : SocketEnv W}.

(** Modelled from the spec: [DisconnectFromServer] is defined in
    [snapuserd_client.h], which is missing here; it closes the
    connection. *)
Definition DisconnectFromServer : M W unit :=
  fun s => (Ret tt, mkClient (sockfd_ s) (sys_close (sockfd_ s) (world s))).

(** [SnapuserdClient::Sendmsg]. *)
Definition Sendmsg (msg : string) (size : Z) : M W Z :=
  fun s =>
    let '(numBytesSent, w) := sys_send (sockfd_ s) msg size (world s) in
    let s' := mkClient (sockfd_ s) w in
    if numBytesSent <? 0 then (Ret (-1), s')
    else if numBytesSent <? size then (Ret (-1), s')
    else (Ret 0, s').

(** [SnapuserdClient::Receivemsg]. *)
Definition Receivemsg : M W string :=
  fun s =>
    let msgStr := "fail" in
    let '(ret1, w1) := sys_select (sockfd_ s + 1) (world s) in
    if ret1 =? -1 then (Ret msgStr, mkClient (sockfd_ s) w1)
    else if ret1 =? 0 then (Ret msgStr, mkClient (sockfd_ s) w1)
    else
      let '(ret2, msg, w2) := sys_recv (sockfd_ s) PACKET_SIZE w1 in
      let s' := mkClient (sockfd_ s) w2 in
      if ret2 <? 0 then (Ret msgStr, s')
      else if ret2 =? 0 then (Ret msgStr, s')
      else (Ret msg, s').

Definition msg_size (msg : string) : Z := Z.of_nat (String.length msg).

(** [SnapuserdClient::ConnectToServerSocket]. *)
Definition ConnectToServerSocket (socketname : string) : M W bool :=
  fun s =>
    let '(fd, w) := socket_local_client socketname (world s) in
    let s1 := mkClient fd w in
    if fd <? 0 then (Ret false, s1)
    else
      (let msg := "query" in
       sendRet <- Sendmsg msg (msg_size msg) ;;
       if sendRet <? 0 then DisconnectFromServer ;;; ret false
       else
         str <- Receivemsg ;;
         if found (find str "fail") then DisconnectFromServer ;;; ret false
         else if found (find str "passive") then DisconnectFromServer ;;; ret false
         else CHECK (found (find str "active")) ;;; ret true) s1.

(** [SnapuserdClient::ConnectToServer]. *)
Definition ConnectToServer : M W bool :=
  r1 <- ConnectToServerSocket GetSocketNameFirstStage ;;
  if r1 then ret true
  else
    r2 <- ConnectToServerSocket GetSocketNameSecondStage ;;
    if r2 then ret true else ret false.

(** [SnapuserdClient::StopSnapuserd]. *)
Definition StopSnapuserd (firstStageDaemon : bool) : M W Z :=
  connected <-
    (if firstStageDaemon then
       fun s =>
         let '(fd, w) := socket_local_client GetSocketNameFirstStage (world s) in
         (Ret (negb (fd <? 0)), mkClient fd w)
     else ConnectToServer) ;;
  if negb connected then ret (-1)
  else
    let msg := "stop" in
    sendRet <- Sendmsg msg (msg_size msg) ;;
    if sendRet <? 0 then ret (-1)
    else DisconnectFromServer ;;; ret 0.

(** The polling loop of [StartSnapuserdaemon]; [remaining] is
    [MAX_CONNECT_RETRY_COUNT - retry_count]. *)
Fixpoint connect_retry_loop (remaining : nat) : M W Z :=
  match remaining with
  | O => ret (-1)
  | S k =>
    connected <- ConnectToServer ;;
    if negb connected then
      (fun s => (Ret tt, mkClient (sockfd_ s) (sleep_for 500 (world s)))) ;;;
      connect_retry_loop k
    else
      (fun s => (Ret tt, mkClient (sockfd_ s) (sys_close (sockfd_ s) (world s)))) ;;;
      ret 0
  end.

(** [SnapuserdClient::StartSnapuserdaemon]. *)
Definition StartSnapuserdaemon (socketname : string) : M W Z :=
  let spawn : M W bool :=
    fun s =>
      let '(pid, w) := sys_fork (world s) in
      if pid =? 0 then
        match sys_execv "/system/bin/snapuserd"
                ["/system/bin/snapuserd"; socketname] w with
        | (None, w') => (Replaced, mkClient (sockfd_ s) w')
        | (Some r, w') => (Ret (negb (r =? 0)), mkClient (sockfd_ s) w')
        end
      else (Ret false, mkClient (sockfd_ s) w) in
  exec_failed <- spawn ;;
  if exec_failed then ret (-1)
  else connect_retry_loop MAX_CONNECT_RETRY_COUNT.

(** [SnapuserdClient::StartSnapuserd]. *)
Definition StartSnapuserd : M W Z :=
  r <- StartSnapuserdaemon GetSocketNameFirstStage ;;
  if r <? 0 then ret (-1) else ret 0.

(** [SnapuserdClient::InitializeSnapuserd]. *)
Definition InitializeSnapuserd (cow_device backing_device control_device : string)
  : M W Z :=
  connected <- ConnectToServer ;;
  if negb connected then ret (-1)
  else
    let msg := ("start," ++ cow_device ++ "," ++ backing_device ++ ","
                ++ control_device)%string in
    r <- Sendmsg msg (msg_size msg) ;;
    if r <? 0 then ret (-1)
    else
      str <- Receivemsg ;;
      if found (find str "fail") then ret (-1)
      else DisconnectFromServer ;;; ret 0.

(** The device loop of [RestartSnapuserd]: the three references are bound
    first, then [InitializeSnapuserd] is called and its result dropped. *)
Fixpoint initialize_devices (vec : list (list string)) : M W unit :=
  match vec with
  | [] => ret tt
  | v :: rest =>
    cow_device <- vec_at v 0 ;;
    base_device <- vec_at v 1 ;;
    control_device <- vec_at v 2 ;;
    InitializeSnapuserd cow_device base_device control_device ;;;
    initialize_devices rest
  end.

(** [SnapuserdClient::RestartSnapuserd]. *)
Definition RestartSnapuserd (vec : list (list string)) : M W Z :=
  connected <- ConnectToServer ;;
  if negb connected then ret (-1)
  else
    let msg := "terminate-request" in
    sendRet <- Sendmsg msg (msg_size msg) ;;
    if sendRet <? 0 then ret (-1)
    else
      str <- Receivemsg ;;
      if found (find str "fail") then ret (-1)
      else
        CHECK (found (find str "success")) ;;;
        DisconnectFromServer ;;;
        started <- StartSnapuserdaemon GetSocketNameSecondStage ;;
        if started <? 0 then ret (-1)
        else initialize_devices vec ;;; ret 0.

End ClientOps.

(** ** A scripted daemon

    Sockets named in [m_listening] accept connections (descriptor 3);
    [send] takes the whole message; each receive delivers the next string
    of [m_replies], and an exhausted script reads as a disconnect.
    [m_log] keeps what the daemons saw, most recent first. *)
Inductive MockEvent :=
| MConnect (name : string)
| MSend (msg : string)
| MRecv (reply : string)
| MClose
| MFork
| MSleep.

Record Mock := mkMock {
  m_listening : list string;
  m_replies : list string;
  m_log : list MockEvent
}.

Definition mock_log (e : MockEvent) (m : Mock) : Mock :=
  mkMock (m_listening m) (m_replies m) (e :: m_log m).

#[export] Instance MockEnv : SocketEnv Mock := {
  socket_local_client name m :=
    if existsb (String.eqb name) (m_listening m)
    then (3, mock_log (MConnect name) m)
    else (-1, m);
  sys_send fd msg size m := (size, mock_log (MSend msg) m);
  sys_select nfds m := (1, m);
  sys_recv fd size m :=
    match m_replies m with
    | [] => (0, "", m)
    | r :: rest =>
      (Z.of_nat (String.length r), r,
       mkMock (m_listening m) rest (MRecv r :: m_log m))
    end;
  sys_close fd m := mock_log MClose m;
  sys_fork m := (1, mock_log MFork m);
  sys_execv path argv m := (None, m);
  sleep_for ms m := mock_log MSleep m
}.

(** A daemon that is always there and always agrees: every reply is
    ["active success"]. *)
#[export] Instance AgreeingEnv : SocketEnv unit := {
  socket_local_client name w := (3, w);
  sys_send fd msg size w := (size, w);
  sys_select nfds w := (1, w);
  sys_recv fd size w := (14, "active success", w);
  sys_close fd w := w;
  sys_fork w := (1, w);
  sys_execv path argv w := (None, w);
  sleep_for ms w := w
}.

(* ===================================================================== *)
(** * Part VII: vocabulary of the statements, and concrete inputs         *)
(* ===================================================================== *)

(** A file on which every call succeeds and every read makes progress. *)
Definition healthy (f : File) : Prop :=
  f_seekable f = true /\ f_readable f = true /\ 0 < f_chunk f /\
  file_size f < two63.

(** A read that stays inside [lo, hi). *)
Definition read_within (lo hi : Z) (c : SysCall) : Prop :=
  match c with
  | SysRead p l => lo <= p /\ p + l <= hi
  | SysLseek _ _ => False
  end.

(** The header [Parse] decodes: the first [sizeof(CowHeader)] bytes. *)
Definition file_header (f : File) : CowHeader :=
  decode_header (slice 0 sizeof_CowHeader (f_data f)).

(** The records stored in a buffer: the [k]-th is the overlay on the bytes
    from [k * sizeof(CowOperation)]. *)
Definition record_at (ops : list byte) (k : nat) : CowOperation :=
  decode_op (slice (Z.of_nat k * sizeof_CowOperation) sizeof_CowOperation ops).

Definition stored_records (ops : list byte) (first count : nat) : list CowOperation :=
  map (record_at ops) (seq first count).

(** The client after [close(sockfd_)]. *)
Definition closed {W} {env : SocketEnv W} (s : Client W) : Client W :=
  mkClient (sockfd_ s) (sys_close (sockfd_ s) (world s)).

(** A computation that never indexes a vector out of range. *)
Definition in_range {W A} (m : M W A) : Prop :=
  forall s, fst (m s) <> OutOfRange.

(** Every inner vector holds the three device names. *)
Definition triples (vec : list (list string)) : Prop :=
  Forall (fun v => (3 <= List.length v)%nat) vec.

(** ** Concrete containers

    One build of the reader: the magic number the format documents, and
    version 1.0. *)
#[export] Instance BuildConstants : CowConstants := {
  kCowMagicNumber := 0x55667788;
  kCowVersionMajor := 1;
  kCowVersionMinor := 0
}.

(** A header that passes the magic, size and version checks of that build. *)
Definition build_header (off size : Z) (hsum osum : list byte) : CowHeader :=
  mkCowHeader 0x55667788 1 0 sizeof_CowHeader 4096 off size hsum osum.

(** A regular file: the header, then [rest]; a read delivers at most
    [chunk] bytes. *)
Definition cow_file (h : CowHeader) (rest : list byte) (chunk : Z) : File :=
  mkFile (encode_header h ++ rest) true true chunk.

(** A file of exactly [sizeof(CowHeader)] bytes whose header places an
    empty operation table at offset 0. *)
Definition header_only_file : File :=
  cow_file (build_header 0 0 (zero_bytes 32) (zero_bytes 32)) [] 4096.

(** A file of exactly [sizeof(CowHeader)] bytes whose header places the
    operation table at its own end. *)
Definition bare_header_file : File :=
  cow_file (build_header 96 0 (zero_bytes 32) (zero_bytes 32)) [] 4096.

(** A header followed by an operation table of a single byte. *)
Definition ragged_table_file : File :=
  cow_file (build_header 96 1 (zero_bytes 32) (zero_bytes 32)) [x2a] 4096.

(** One REPLACE operation whose 16-byte payload sits right after the
    header; both stored checksums are zero. *)
Definition one_op : CowOperation := mkCowOperation 2 0 16 7 96.
Definition one_op_payload : list byte := repeat xab 16.
Definition one_op_header (hsum osum : list byte) : CowHeader :=
  build_header 112 sizeof_CowOperation hsum osum.
Definition one_op_file (hsum osum : list byte) (chunk : Z) : File :=
  cow_file (one_op_header hsum osum) (one_op_payload ++ encode_op one_op) chunk.

(** The same container cut one byte short of the end of its table. *)
Definition truncated_file : File :=
  cow_file (one_op_header (zero_bytes 32) (zero_bytes 32))
           (one_op_payload ++ firstn 27 (encode_op one_op)) 4096.

(** One build of the client. *)
#[export] Instance BuildClient : ClientConstants := {
  GetSocketNameFirstStage := "snapuserd_first_stage";
  GetSocketNameSecondStage := "snapuserd";
  PACKET_SIZE := 512;
  MAX_CONNECT_RETRY_COUNT := 10
}.

(** A fresh client facing two listening daemons that will send [replies]. *)
Definition scripted (replies : list string) : Client Mock :=
  mkClient 0 (mkMock ["snapuserd_first_stage"; "snapuserd"] replies []).

(** The transition as it should go, except that the second-stage daemon
    answers the [start] message with "fail". *)
Definition start_refused : list string :=
  ["active"; "success"; "passive"; "active"; "passive"; "active"; "fail"].

(** ** The reader between calls

    What every call after a successful [Parse] on file [f] finds and
    leaves: the descriptor still on [f], the header and size [Parse]
    stored, and the operation table inside the file. *)
Definition parsed_on (f : File) (r : CowReader) : Prop :=
  healthy f /\ sizeof_CowHeader <= file_size f /\
  fd_file (fd_ r) = f /\
  header_ r = file_header f /\ fd_size_ r = file_size f /\
  ops_offset (header_ r) < fd_size_ r /\
  ops_size (header_ r) <= fd_size_ r - ops_offset (header_ r).

(** The two seeks [Parse] starts with, most recent first. *)
Definition parse_seeks : list SysCall :=
  [SysLseek 0 SEEK_SET; SysLseek 0 SEEK_END].

(** The exits of [Parse] at which a seek has failed. *)
Definition seek_failed (st : Status) : bool :=
  match st with
  | Failure LseekEndFailed | Failure LseekHeaderFailed => true
  | _ => false
  end.

(** A request [GetRawBytes] serves: it starts in the payload region and
    ends no later than the operation table. *)
Definition in_payload (r : CowReader) (offset len : Z) : Prop :=
  sizeof_CowHeader <= offset < ops_offset (header_ r) /\
  offset + len <= ops_offset (header_ r).

(** A stream whose unread part lies in the payload region. *)
Definition stream_in_payload (r : CowReader) (st : CowDataStream) : Prop :=
  0 <= remaining_ st /\ sizeof_CowHeader <= offset_ st /\
  offset_ st + remaining_ st <= ops_offset (header_ r).

(** The way a consumer empties a stream: [Read] into a buffer of [length]
    bytes until a call delivers nothing.  [None] is a failed [Read]; every
    call but the last delivers at least one byte, so [fuel] counts the
    bytes still to come. *)
Fixpoint read_to_end (fuel : nat) (length : Z) (st : CowDataStream)
    (reader : CowReader) (acc : list byte)
  : option (list byte) * CowDataStream * CowReader :=
  match CowDataStream_Read st reader length with
  | (inl _, st', reader') => (None, st', reader')
  | (inr rd, st', reader') =>
    if raw_read rd =? 0 then (Some acc, st', reader')
    else match fuel with
         | O => (None, st', reader')
         | S k => read_to_end k length st' reader' (acc ++ raw_buffer rd)
         end
  end.

(** What the constructor of [CowOpIter] sets up and [Next] keeps: the flag
    says exactly whether a whole record is left, and the cursor arithmetic
    stays inside [size_t]. *)
Definition iter_ok (it : CowOpIter) : Prop :=
  done_ it = negb (HasNext it) /\ 0 <= pos_ it /\ end_ it < two64.

(** A scripted world in which no daemon listens. *)
Definition nobody_listening (replies : list string) (log : list MockEvent) : Mock :=
  mkMock [] replies log.


(** An empty regular file. *)
Definition empty_file : File := mkFile [] true true 4096.

(* ===================================================================== *)
(** * Part VIII: facts about bytes and the byte source                    *)
(* ===================================================================== *)

Lemma byte_val_range (b : byte) : 0 <= byte_val b < 256.
Proof.
  unfold byte_val. pose proof (Byte.to_N_bounded b) as H. lia.
Qed.

Lemma le_decode_nonneg (bs : list byte) : 0 <= le_decode bs.
Proof.
  induction bs as [|b bs IH]; cbn [le_decode]; [lia|].
  pose proof (byte_val_range b). lia.
Qed.

Lemma slice_app (p n m : Z) (l : list byte) :
  0 <= p -> 0 <= n -> 0 <= m ->
  slice p n l ++ slice (p + n) m l = slice p (n + m) l.
Proof.
  intros Hp Hn Hm. unfold slice.
  rewrite !Z2Nat.inj_add by lia.
  rewrite (Nat.add_comm (Z.to_nat p)), <- skipn_skipn.
  generalize (skipn (Z.to_nat p) l) as t.
  generalize (Z.to_nat n) as a. generalize (Z.to_nat m) as b.
  intros b a. induction a as [|a IH]; intros t; simpl.
  - reflexivity.
  - destruct t as [|x t]; simpl.
    + rewrite firstn_nil. reflexivity.
    + f_equal. apply IH.
Qed.

Lemma slice_zero (p : Z) (l : list byte) : slice p 0 l = [].
Proof. reflexivity. Qed.

Lemma slice_length (p n : Z) (l : list byte) :
  0 <= p -> 0 <= n -> p + n <= Z.of_nat (List.length l) ->
  Z.of_nat (List.length (slice p n l)) = n.
Proof.
  intros Hp Hn Hle. unfold slice.
  rewrite length_firstn, length_skipn. lia.
Qed.

Lemma bytes_eqb_eq (a b : list byte) : bytes_eqb a b = true <-> a = b.
Proof.
  revert b. induction a as [|x a IH]; intros [|y b]; simpl; split;
    try discriminate; try reflexivity.
  - intros H. apply andb_true_iff in H as [Hx Hr].
    apply Byte.byte_dec_bl in Hx. apply IH in Hr. congruence.
  - intros H. injection H as -> ->. apply andb_true_iff. split.
    + apply Byte.byte_dec_lb. reflexivity.
    + apply IH. reflexivity.
Qed.

(** What one [read] delivers. *)
Lemma sys_read_inv (fd fd' : Fd) (len n : Z) (bs : list byte) :
  sys_read fd len = (n, bs, fd') ->
  fd_file fd' = fd_file fd /\
  fd_log fd' = SysRead (fd_pos fd) len :: fd_log fd /\
  (n = -1 /\ f_readable (fd_file fd) = false /\ fd_pos fd' = fd_pos fd
   \/
   f_readable (fd_file fd) = true /\
   n = Z.max 0 (Z.min len (Z.min (f_chunk (fd_file fd))
                                 (Z.max 0 (file_size (fd_file fd) - fd_pos fd)))) /\
   bs = slice (fd_pos fd) n (f_data (fd_file fd)) /\
   fd_pos fd' = fd_pos fd + n).
Proof.
  unfold sys_read. destruct (f_readable (fd_file fd)); simpl; intros H;
    injection H as <- <- <-; simpl; (split; [reflexivity|split; [reflexivity|]]).
  - right. repeat split; reflexivity.
  - left. repeat split; reflexivity.
Qed.

(** A successful [ReadFully] has delivered exactly the bytes of the file at
    the position it started from. *)
Lemma ReadFully_loop_true (fuel : nat) :
  forall (fd fd' : Fd) (rem : Z) (acc bs : list byte),
    ReadFully_loop fuel fd rem acc = (true, bs, fd') ->
    0 <= fd_pos fd ->
    bs = acc ++ slice (fd_pos fd) (Z.max 0 rem) (f_data (fd_file fd)) /\
    fd_file fd' = fd_file fd /\
    fd_pos fd' = fd_pos fd + Z.max 0 rem /\
    (0 < rem ->
     f_readable (fd_file fd) = true /\ 0 < f_chunk (fd_file fd) /\
     fd_pos fd + rem <= file_size (fd_file fd)).
Proof.
  induction fuel as [|k IH]; intros fd fd' rem acc bs H Hpos; simpl in H;
    destruct (rem <=? 0) eqn:Hrem.
  - apply Z.leb_le in Hrem. injection H as <- <-.
    replace (Z.max 0 rem) with 0 by lia. rewrite slice_zero, app_nil_r.
    repeat split; lia.
  - discriminate.
  - apply Z.leb_le in Hrem. injection H as <- <-.
    replace (Z.max 0 rem) with 0 by lia. rewrite slice_zero, app_nil_r.
    repeat split; lia.
  - apply Z.leb_gt in Hrem.
    destruct (sys_read fd rem) as [[n rd] fd1] eqn:Hread.
    destruct (n <=? 0) eqn:Hn; [discriminate|]. apply Z.leb_gt in Hn.
    apply sys_read_inv in Hread as (Hfile & _ & [(-> & _) | (Hr & Hnv & -> & Hp1)]);
      [lia|].
    apply IH in H; [|lia]. destruct H as (-> & Hf' & Hp' & Hmore).
    rewrite Hfile, Hp1 in *.
    assert (Hle : n <= rem) by lia.
    assert (Hav : n <= file_size (fd_file fd) - fd_pos fd) by lia.
    assert (Hch : 0 < f_chunk (fd_file fd)) by lia.
    split.
    { rewrite <- app_assoc. f_equal.
      replace (Z.max 0 rem) with (n + Z.max 0 (rem - n)) by lia.
      apply slice_app; lia. }
    repeat split; auto; lia.
Qed.

Lemma ReadFully_loop_log (fuel : nat) :
  forall (fd fd' : Fd) (rem : Z) (acc bs : list byte) (ok : bool),
    ReadFully_loop fuel fd rem acc = (ok, bs, fd') ->
    exists calls,
      fd_log fd' = calls ++ fd_log fd /\
      Forall (read_within (fd_pos fd) (fd_pos fd + rem)) calls.
Proof.
  induction fuel as [|k IH]; intros fd fd' rem acc bs ok H; simpl in H;
    destruct (rem <=? 0) eqn:Hrem.
  - injection H as <- <- <-. exists []. split; [reflexivity|constructor].
  - injection H as <- <- <-. exists []. split; [reflexivity|constructor].
  - injection H as <- <- <-. exists []. split; [reflexivity|constructor].
  - apply Z.leb_gt in Hrem.
    destruct (sys_read fd rem) as [[n rd] fd1] eqn:Hread.
    apply sys_read_inv in Hread as (Hfile & Hlog & Hcases).
    destruct (n <=? 0) eqn:Hn.
    + injection H as <- <- <-. exists [SysRead (fd_pos fd) rem].
      split; [exact Hlog|]. repeat constructor; simpl; lia.
    + apply Z.leb_gt in Hn.
      destruct Hcases as [(-> & _) | (_ & Hnv & _ & Hp1)]; [lia|].
      apply IH in H as (calls & Hl & Hall).
      exists (calls ++ [SysRead (fd_pos fd) rem]). split.
      * rewrite Hl, Hlog, <- app_assoc. reflexivity.
      * apply Forall_app. split.
        -- eapply Forall_impl; [|exact Hall].
           intros [o w|p l]; simpl; [tauto|]. rewrite Hp1. lia.
        -- repeat constructor; simpl; lia.
Qed.

(** On a healthy file a request that fits always succeeds. *)
Lemma ReadFully_loop_healthy (fuel : nat) :
  forall (fd : Fd) (rem : Z) (acc : list byte),
    f_readable (fd_file fd) = true -> 0 < f_chunk (fd_file fd) ->
    0 <= fd_pos fd -> fd_pos fd + rem <= file_size (fd_file fd) ->
    (Z.to_nat rem <= fuel)%nat ->
    exists fd', ReadFully_loop fuel fd rem acc =
                (true, acc ++ slice (fd_pos fd) (Z.max 0 rem) (f_data (fd_file fd)), fd').
Proof.
  induction fuel as [|k IH]; intros fd rem acc Hr Hc Hp Hfit Hfuel; simpl;
    destruct (rem <=? 0) eqn:Hrem;
    try (apply Z.leb_le in Hrem; replace (Z.max 0 rem) with 0 by lia;
         rewrite slice_zero, app_nil_r; eexists; reflexivity).
  - apply Z.leb_gt in Hrem. lia.
  - apply Z.leb_gt in Hrem.
    destruct (sys_read fd rem) as [[n rd] fd1] eqn:Hread.
    apply sys_read_inv in Hread as (Hfile & _ & [(_ & Hf & _) | (_ & Hnv & -> & Hp1)]);
      [congruence|].
    assert (Hn : 0 < n) by lia.
    destruct (n <=? 0) eqn:Hn0; [apply Z.leb_le in Hn0; lia|].
    destruct (IH fd1 (rem - n) (acc ++ slice (fd_pos fd) n (f_data (fd_file fd))))
      as (fd' & Heq); rewrite ?Hfile, ?Hp1; auto; try lia.
    exists fd'. rewrite Heq, Hfile, Hp1, <- app_assoc.
    replace (Z.max 0 rem) with (n + Z.max 0 (rem - n)) by lia.
    rewrite <- slice_app by lia. reflexivity.
Qed.

Lemma sys_lseek_inv (fd fd' : Fd) (off r : Z) (w : Whence) :
  sys_lseek fd off w = (r, fd') ->
  fd_file fd' = fd_file fd /\
  fd_log fd' = SysLseek off w :: fd_log fd /\
  (r = -1 \/
   f_seekable (fd_file fd) = true /\ 0 <= r < two63 /\ fd_pos fd' = r /\
   r = match w with SEEK_SET => off | SEEK_END => file_size (fd_file fd) + off end).
Proof.
  unfold sys_lseek. destruct (f_seekable (fd_file fd)); simpl.
  - destruct (_ || _) eqn:Hc; intros H; injection H as <- <-; simpl;
      repeat split; auto.
    right. apply orb_false_iff in Hc as [H1 H2].
    apply Z.ltb_ge in H1. apply Z.leb_gt in H2. repeat split; auto.
  - intros H; injection H as <- <-; simpl; repeat split; auto.
Qed.

(* ===================================================================== *)
(** * Part IX: Parse                                                      *)
(* ===================================================================== *)

Section ParseFacts.
Context {consts : CowConstants}.

(** Up to the range checks, [Parse] on a healthy file that holds a whole
    header only depends on the decoded header. *)
Lemma Parse_reads_header (self : CowReader) (fd : Fd) :
  healthy (fd_file fd) -> sizeof_CowHeader <= file_size (fd_file fd) ->
  exists fd3,
    sys_lseek fd 0 SEEK_END =
      (file_size (fd_file fd),
       mkFd (fd_file fd) (file_size (fd_file fd))
            (SysLseek 0 SEEK_END :: fd_log fd)) /\
    sys_lseek (mkFd (fd_file fd) (file_size (fd_file fd))
                    (SysLseek 0 SEEK_END :: fd_log fd)) 0 SEEK_SET =
      (0, mkFd (fd_file fd) 0
               (SysLseek 0 SEEK_SET :: SysLseek 0 SEEK_END :: fd_log fd)) /\
    ReadFully (mkFd (fd_file fd) 0
                    (SysLseek 0 SEEK_SET :: SysLseek 0 SEEK_END :: fd_log fd))
              sizeof_CowHeader =
      (true, slice 0 sizeof_CowHeader (f_data (fd_file fd)), fd3).
Proof.
  intros (Hs & Hr & Hc & Hsz) Hlen.
  assert (Hnn : 0 <= file_size (fd_file fd)) by (unfold file_size; lia).
  unfold sizeof_CowHeader in *.
  destruct (ReadFully_loop_healthy (Z.to_nat 96)
              (mkFd (fd_file fd) 0
                 (SysLseek 0 SEEK_SET :: SysLseek 0 SEEK_END :: fd_log fd))
              96 []) as (fd3 & Hrf); simpl; auto; try lia.
  exists fd3. split; [|split].
  - unfold sys_lseek. rewrite Hs. simpl.
    replace (file_size (fd_file fd) + 0) with (file_size (fd_file fd)) by lia.
    destruct (file_size (fd_file fd) <? 0) eqn:H1; [apply Z.ltb_lt in H1; lia|].
    destruct (two63 <=? file_size (fd_file fd)) eqn:H2;
      [apply Z.leb_le in H2; lia|]. reflexivity.
  - unfold sys_lseek. simpl. rewrite Hs. reflexivity.
  - exact Hrf.
Qed.

(** What a successful [Parse] has established. *)
Lemma Parse_success_inv (self : CowReader) (fd : Fd) (r : CowReader) :
  Parse self fd = (Success, r) ->
  healthy (fd_file fd) /\
  sizeof_CowHeader <= file_size (fd_file fd) /\
  fd_file (fd_ r) = fd_file fd /\
  header_ r = file_header (fd_file fd) /\
  fd_size_ r = file_size (fd_file fd) /\
  0 <= ops_offset (header_ r) < fd_size_ r /\
  0 <= ops_size (header_ r) <= fd_size_ r - ops_offset (header_ r) /\
  magic (header_ r) = kCowMagicNumber /\
  header_size (header_ r) = sizeof_CowHeader /\
  major_version (header_ r) = kCowVersionMajor /\
  minor_version (header_ r) = kCowVersionMinor /\
  memcmp_ne (zero_bytes 32) (header_checksum (header_ r)) 32 = false.
Proof.
  unfold Parse.
  destruct (sys_lseek fd 0 SEEK_END) as [pos fd1] eqn:H1.
  apply sys_lseek_inv in H1 as (Hf1 & _ & Hc1).
  destruct (pos <? 0) eqn:Hpos; [discriminate|]. apply Z.ltb_ge in Hpos.
  destruct Hc1 as [->|(Hseek & Hrange & Hp1 & Hv1)]; [lia|].
  destruct (sys_lseek fd1 0 SEEK_SET) as [r0 fd2] eqn:H2.
  apply sys_lseek_inv in H2 as (Hf2 & _ & Hc2).
  destruct (r0 <? 0) eqn:Hr0; [discriminate|]. apply Z.ltb_ge in Hr0.
  destruct Hc2 as [->|(_ & _ & Hp2 & Hv2)]; [lia|].
  destruct (ReadFully fd2 sizeof_CowHeader) as [[ok bs] fd3] eqn:H3.
  destruct ok; [|discriminate]. cbn [negb].
  unfold ReadFully in H3. apply ReadFully_loop_true in H3; [|lia].
  destruct H3 as (Hbs & Hf3 & _ & Hmore).
  destruct Hmore as (Hrd & Hch & Hfit); [reflexivity|].
  rewrite Hf2, Hf1 in *. rewrite Hp2, Hv2 in *. simpl in Hbs.
  replace (Z.max 0 sizeof_CowHeader) with sizeof_CowHeader in Hbs by reflexivity.
  assert (Hsize : pos = file_size (fd_file fd)) by lia.
  assert (Hlt : file_size (fd_file fd) < two63) by lia.
  clear Hp1 Hv1 Hrange. subst pos bs. fold (file_header (fd_file fd)).
  set (h := file_header (fd_file fd)).
  assert (Hoff : 0 <= ops_offset h) by apply le_decode_nonneg.
  assert (Hops : 0 <= ops_size h) by apply le_decode_nonneg.
  destruct (file_size (fd_file fd) <=? ops_offset h) eqn:C1; [discriminate|].
  apply Z.leb_gt in C1.
  assert (Hw : wrap64 (file_size (fd_file fd) - ops_offset h)
               = file_size (fd_file fd) - ops_offset h).
  { unfold wrap64. apply Z.mod_small. unfold two63, two64 in *. lia. }
  rewrite Hw.
  destruct (_ <? ops_size h) eqn:C2; [discriminate|]. apply Z.ltb_ge in C2.
  destruct (magic h =? kCowMagicNumber) eqn:C3; [|discriminate].
  destruct (header_size h =? sizeof_CowHeader) eqn:C4; [|discriminate].
  destruct (major_version h =? kCowVersionMajor) eqn:C5; [|discriminate].
  destruct (minor_version h =? kCowVersionMinor) eqn:C6; [|discriminate].
  cbn [negb orb]. unfold SHA256.
  destruct (memcmp_ne _ _ 32) eqn:C7; [discriminate|].
  intros H. injection H as <-. simpl.
  apply Z.eqb_eq in C3, C4, C5, C6.
  unfold healthy. repeat split; auto; lia.
Qed.

End ParseFacts.

(* ===================================================================== *)
(** * Part X: GetRawBytes                                                 *)
(* ===================================================================== *)

Section RawBytes.
Context {consts : CowConstants}.

(** C1.  On a reader that [Parse] accepted, [GetRawBytes offset len] is
    refused at the range check, leaving the descriptor untouched (no seek,
    no read), whenever [offset < sizeof(CowHeader)], or
    [offset >= ops_offset], or [len >= fd_size], or the exact sum
    [offset + len] exceeds [ops_offset]; a pair whose sum does not fit in
    64 bits is among them. *)
Theorem GetRawBytes_rejects_out_of_range
    (self : CowReader) (fd : Fd) (r : CowReader) (offset len : Z) :
  Parse self fd = (Success, r) ->
  0 <= offset < two64 -> 0 <= len < two64 ->
  (offset < sizeof_CowHeader \/ ops_offset (header_ r) <= offset \/
   fd_size_ r <= len \/ ops_offset (header_ r) < offset + len \/
   two64 <= offset + len) ->
  GetRawBytes r offset len = (inl InvalidDataOffset, r) /\
  error_kind InvalidDataOffset = RangeError /\
  fd_log (fd_ (snd (GetRawBytes r offset len))) = fd_log (fd_ r).
Proof.
  intros HP Hoff Hlen Hbad.
  apply Parse_success_inv in HP
    as ((_ & _ & _ & Hsz) & _ & _ & _ & Hfs & Hops & _).
  assert (Hrej : GetRawBytes r offset len = (inl InvalidDataOffset, r)).
  { unfold GetRawBytes.
    destruct (offset <? sizeof_CowHeader) eqn:T1; [reflexivity|].
    destruct (ops_offset (header_ r) <=? offset) eqn:T2; [reflexivity|].
    destruct (fd_size_ r <=? len) eqn:T3; [reflexivity|].
    apply Z.ltb_ge in T1. apply Z.leb_gt in T2, T3.
    assert (Hw : wrap64 (offset + len) = offset + len).
    { unfold wrap64. apply Z.mod_small. unfold two63, two64 in *. lia. }
    rewrite Hw.
    destruct (ops_offset (header_ r) <? offset + len) eqn:T4; [reflexivity|].
    apply Z.ltb_ge in T4. unfold two63, two64 in *. lia. }
  rewrite Hrej. repeat split.
Qed.

(** [GetRawBytes] in full, for a reader whose header and size are sane
    and whose descriptor is in any state. *)
Lemma GetRawBytes_any_descriptor (r0 : CowReader) (offset len : Z) :
  0 <= ops_offset (header_ r0) < fd_size_ r0 -> fd_size_ r0 < two63 ->
  0 <= offset < two64 -> 0 <= len < two64 ->
  let h := header_ r0 in
  let f := fd_file (fd_ r0) in
  let seeks := SysLseek offset SEEK_SET :: fd_log (fd_ r0) in
  let reads := SysRead offset len :: seeks in
  let in_range :=
    sizeof_CowHeader <= offset < ops_offset h /\ offset + len <= ops_offset h in
  (~ in_range /\ GetRawBytes r0 offset len = (inl InvalidDataOffset, r0))
  \/
  (in_range /\ f_seekable f = false /\
   GetRawBytes r0 offset len =
     (inl LseekRawFailed, mkCowReader (mkFd f (fd_pos (fd_ r0)) seeks) h (fd_size_ r0)))
  \/
  (in_range /\ f_seekable f = true /\ f_readable f = false /\
   GetRawBytes r0 offset len =
     (inl ReadFailed, mkCowReader (mkFd f offset reads) h (fd_size_ r0)))
  \/
  (in_range /\ f_seekable f = true /\ f_readable f = true /\
   let n := Z.max 0 (Z.min len (Z.min (f_chunk f) (Z.max 0 (file_size f - offset)))) in
   GetRawBytes r0 offset len =
     (inr (mkRawRead n (slice offset n (f_data f))),
      mkCowReader (mkFd f (offset + n) reads) h (fd_size_ r0))).
Proof.
  intros Hops Hsz Hoff Hlen h f seeks reads in_range.
  unfold in_range, GetRawBytes. fold h.
  destruct (offset <? sizeof_CowHeader) eqn:T1;
    [apply Z.ltb_lt in T1; left; split; [lia|reflexivity]|].
  destruct (ops_offset h <=? offset) eqn:T2;
    [apply Z.leb_le in T2; left; split; [lia|reflexivity]|].
  apply Z.ltb_ge in T1. apply Z.leb_gt in T2.
  destruct (fd_size_ r0 <=? len) eqn:T3;
    [apply Z.leb_le in T3; left; split; [unfold h in *; lia|reflexivity]|].
  apply Z.leb_gt in T3.
  assert (Hw : wrap64 (offset + len) = offset + len).
  { unfold wrap64. apply Z.mod_small. unfold h, two63, two64 in *. lia. }
  rewrite Hw.
  destruct (ops_offset h <? offset + len) eqn:T4;
    [apply Z.ltb_lt in T4; left; split; [lia|reflexivity]|].
  apply Z.ltb_ge in T4. right. cbn [orb].
  assert (Ho : to_off_t offset = offset).
  { unfold to_off_t. destruct (offset <? two63) eqn:T; [reflexivity|].
    apply Z.ltb_ge in T. unfold h in *. lia. }
  rewrite Ho. unfold sys_lseek. fold f.
  destruct (f_seekable f) eqn:Hsk; cbn [negb].
  - destruct ((offset <? 0) || (two63 <=? offset)) eqn:T5.
    { apply orb_true_iff in T5 as [T5|T5];
        [apply Z.ltb_lt in T5|apply Z.leb_le in T5];
        unfold h, sizeof_CowHeader in *; lia. }
    destruct (offset <? 0) eqn:T6;
      [apply Z.ltb_lt in T6; unfold sizeof_CowHeader in *; lia|].
    unfold sys_read. cbn [fd_file fd_pos fd_log]. right.
    destruct (f_readable f) eqn:Hrd; cbn [negb].
    + right. split; [lia|]. split; [reflexivity|]. split; [reflexivity|].
      cbv zeta.
      destruct (Z.max 0 (Z.min len (Z.min (f_chunk f)
                  (Z.max 0 (file_size f - offset)))) <? 0) eqn:T7;
        [apply Z.ltb_lt in T7; lia|]. reflexivity.
    + left. split; [lia|]. split; [reflexivity|]. split; reflexivity.
  - left. split; [lia|]. split; reflexivity.
Qed.

(** C6, as the code has it.  For an in-range request, on the reader as
    [Parse] left it with its descriptor in any state: [GetRawBytes] seeks
    once and, only if the seek went through, reads once, with no loop to
    fill the buffer.  A failed seek and a failed read are each reported as
    an I/O failure.  Otherwise it succeeds and reports the count that one
    read delivered, which is at most [len] and may be fewer (none at the
    end of the file), with that many bytes of the file at [offset]; on the
    file [Parse] read that count is [min len chunk].  The caller,
    [CowDataStream::Read], passes a failure on with its stream untouched
    and after a success moves its offset forward and its remaining count
    down by the reported count. *)
Theorem GetRawBytes_reads_once
    (self : CowReader) (fd : Fd) (r : CowReader) (offset len : Z) (fd' : Fd) :
  Parse self fd = (Success, r) ->
  sizeof_CowHeader <= offset < ops_offset (header_ r) ->
  0 <= len < fd_size_ r ->
  offset + len <= ops_offset (header_ r) ->
  let r' := mkCowReader fd' (header_ r) (fd_size_ r) in
  let f' := fd_file fd' in
  let seeks := SysLseek offset SEEK_SET :: fd_log fd' in
  let reads := SysRead offset len :: seeks in
  (f_seekable f' = false ->
   fst (GetRawBytes r' offset len) = inl LseekRawFailed /\
   error_kind LseekRawFailed = IoError /\
   fd_log (fd_ (snd (GetRawBytes r' offset len))) = seeks) /\
  (f_seekable f' = true -> f_readable f' = false ->
   fst (GetRawBytes r' offset len) = inl ReadFailed /\
   error_kind ReadFailed = IoError /\
   fd_log (fd_ (snd (GetRawBytes r' offset len))) = reads) /\
  (f_seekable f' = true -> f_readable f' = true ->
   let n := Z.max 0 (Z.min len (Z.min (f_chunk f')
                                      (Z.max 0 (file_size f' - offset)))) in
   fst (GetRawBytes r' offset len) = inr (mkRawRead n (slice offset n (f_data f'))) /\
   0 <= n <= len /\
   fd_log (fd_ (snd (GetRawBytes r' offset len))) = reads) /\
  (let n := Z.min len (f_chunk (fd_file fd)) in
   exists r1,
     GetRawBytes r offset len =
       (inr (mkRawRead n (slice offset n (f_data (fd_file fd)))), r1) /\
     fd_log (fd_ r1) =
       SysRead offset len :: SysLseek offset SEEK_SET :: fd_log (fd_ r) /\
     0 <= n <= len) /\
  (forall st length,
     offset_ st = offset -> Z.min length (remaining_ st) = len -> len <> 0 ->
     remaining_ st < two64 ->
     (forall e r1, GetRawBytes r' offset len = (inl e, r1) ->
        CowDataStream_Read st r' length = (inl e, st, r1)) /\
     (forall rd r1, GetRawBytes r' offset len = (inr rd, r1) ->
        exists st',
          CowDataStream_Read st r' length = (inr rd, st', r1) /\
          offset_ st' = offset_ st + raw_read rd /\
          remaining_ st' = remaining_ st - raw_read rd /\
          data_length_ st' = data_length_ st /\
          0 <= raw_read rd <= len)).
Proof.
  intros HP Hoff Hlen Hsum r' f' seeks reads.
  apply Parse_success_inv in HP
    as ((Hsk & Hrd & Hch & Hsz) & _ & Hfile & _ & Hfs & Hops & _).
  assert (Hin : sizeof_CowHeader <= offset < ops_offset (header_ r) /\
                offset + len <= ops_offset (header_ r)) by lia.
  assert (Ho64 : 0 <= offset < two64)
    by (unfold two63, two64, sizeof_CowHeader in *; lia).
  assert (Hl64 : 0 <= len < two64) by (unfold two63, two64 in *; lia).
  assert (Hany : forall fd0,
    let r0 := mkCowReader fd0 (header_ r) (fd_size_ r) in _) by
    (intros fd0; exact (GetRawBytes_any_descriptor
                          (mkCowReader fd0 (header_ r) (fd_size_ r)) offset len
                          ltac:(cbn [header_ fd_size_]; lia)
                          ltac:(cbn [fd_size_]; lia) Ho64 Hl64)).
  cbn zeta in Hany. cbn [header_ fd_size_ fd_] in Hany.
  assert (Hraw : forall fd0,
    let f0 := fd_file fd0 in
    let sk := SysLseek offset SEEK_SET :: fd_log fd0 in
    let rd := SysRead offset len :: sk in
    (f_seekable f0 = false /\
     GetRawBytes (mkCowReader fd0 (header_ r) (fd_size_ r)) offset len =
       (inl LseekRawFailed, mkCowReader (mkFd f0 (fd_pos fd0) sk) (header_ r) (fd_size_ r)))
    \/
    (f_seekable f0 = true /\ f_readable f0 = false /\
     GetRawBytes (mkCowReader fd0 (header_ r) (fd_size_ r)) offset len =
       (inl ReadFailed, mkCowReader (mkFd f0 offset rd) (header_ r) (fd_size_ r)))
    \/
    (f_seekable f0 = true /\ f_readable f0 = true /\
     GetRawBytes (mkCowReader fd0 (header_ r) (fd_size_ r)) offset len =
       (inr (mkRawRead
               (Z.max 0 (Z.min len (Z.min (f_chunk f0) (Z.max 0 (file_size f0 - offset)))))
               (slice offset
                  (Z.max 0 (Z.min len (Z.min (f_chunk f0) (Z.max 0 (file_size f0 - offset)))))
                  (f_data f0))),
        mkCowReader (mkFd f0
                       (offset + Z.max 0 (Z.min len (Z.min (f_chunk f0)
                                                     (Z.max 0 (file_size f0 - offset)))))
                       rd) (header_ r) (fd_size_ r)))).
  { intros fd0 f0 sk rd.
    destruct (Hany fd0) as [(Hno & _) | [(_ & ? & ?) | [(_ & ? & ? & ?) | (_ & ? & ? & ?)]]];
      [contradiction|left; auto|right; left; auto|right; right; auto]. }
  cbn zeta in Hraw.
  split; [|split; [|split; [|split]]].
  - intros Hs. unfold r'.
    destruct (Hraw fd') as [(_ & ->) | [(Hs' & _) | (Hs' & _)]];
      [|unfold f' in *; congruence|unfold f' in *; congruence].
    repeat split.
  - intros Hs Hr. unfold r'.
    destruct (Hraw fd') as [(Hs' & _) | [(_ & _ & ->) | (_ & Hr' & _)]];
      [unfold f' in *; congruence| |unfold f' in *; congruence].
    repeat split.
  - intros Hs Hr n. unfold r'.
    destruct (Hraw fd') as [(Hs' & _) | [(_ & Hr' & _) | (_ & _ & ->)]];
      [unfold f' in *; congruence|unfold f' in *; congruence|].
    cbn [fst snd fd_ fd_log]. fold f'. fold n.
    split; [reflexivity|]. split; [unfold n; lia|reflexivity].
  - intros n. destruct r as [fdr hr sr]. cbn [fd_ header_ fd_size_] in *.
    destruct (Hraw fdr) as [(Hs' & _) | [(_ & Hr' & _) | (_ & _ & Heq)]];
      [congruence|congruence|].
    rewrite Heq, Hfile.
    assert (Hn : Z.max 0 (Z.min len (Z.min (f_chunk (fd_file fd))
                   (Z.max 0 (file_size (fd_file fd) - offset)))) = n)
      by (unfold n; lia).
    rewrite Hn. eexists. split; [reflexivity|]. cbn [fd_ fd_log].
    split; [reflexivity|unfold n; lia].
  - intros st length Hso Hmin Hnz Hrem.
    assert (Hcount : forall rd r1,
              GetRawBytes r' offset len = (inr rd, r1) -> 0 <= raw_read rd <= len).
    { intros rd r1 Hg. unfold r' in Hg.
      destruct (Hraw fd') as [(_ & Heq) | [(_ & _ & Heq) | (_ & _ & Heq)]];
        rewrite Heq in Hg; try discriminate.
      injection Hg as <- _. cbn [raw_read]. lia. }
    unfold CowDataStream_Read. rewrite Hmin, Hso.
    destruct (len =? 0) eqn:T; [apply Z.eqb_eq in T; contradiction|].
    split.
    + intros e r1 Hg. rewrite Hg. reflexivity.
    + intros rd r1 Hg. rewrite Hg. specialize (Hcount rd r1 Hg).
      eexists. split; [reflexivity|]. cbn [offset_ remaining_ data_length_].
      unfold wrap64.
      rewrite !Z.mod_small by (unfold two63, two64, sizeof_CowHeader in *; lia).
      repeat split; lia.
Qed.

End RawBytes.

Lemma drain_step (it : CowOpIter) :
  drain it =
  if Done it then Some []
  else match Get it with
       | None => None
       | Some op =>
         match Next it with
         | None => None
         | Some it' =>
           match drain it' with
           | None => None
           | Some rest => Some (op :: rest)
           end
         end
       end.
Proof.
  funelim (drain it);
    repeat match goal with
           | H : Done _ = _ |- _ => rewrite H
           | H : Get _ = _ |- _ => rewrite H
           | H : Next _ = _ |- _ => rewrite H
           | H : drain _ = Some _ |- _ => rewrite H
           | H : drain _ = None |- _ => rewrite H
           end; reflexivity.
Qed.

(** Walking from the [k]-th record with [m] whole records left yields
    exactly those [m] records, and no [CHECK] fires. *)
Lemma drain_from (ops : list byte) (m : nat) :
  forall (k : nat) (done : bool),
    let pos := Z.of_nat k * sizeof_CowOperation in
    let stop := pos + Z.of_nat m * sizeof_CowOperation in
    stop < two64 ->
    done = (m =? 0)%nat ->
    drain (mkCowOpIter ops pos stop done) = Some (stored_records ops k m).
Proof.
  induction m as [|m IH]; intros k done pos stop Hlt Hdone; subst done;
    rewrite drain_step; unfold Done; cbn [done_ Nat.eqb].
  - reflexivity.
  - assert (Hhas : HasNext (mkCowOpIter ops pos stop false) = true).
    { unfold HasNext, wrap64. cbn [pos_ end_].
      rewrite Z.mod_small by (unfold stop, two64, sizeof_CowOperation in *; lia).
      apply andb_true_iff. split; [apply Z.ltb_lt|apply Z.leb_le];
        unfold stop, sizeof_CowOperation; lia. }
    unfold Get, Next, Done. cbn [done_]. rewrite Hhas. cbn [negb pos_ end_ ops_ done_].
    set (it' := mkCowOpIter ops (pos + sizeof_CowOperation) stop false).
    assert (Hpos' : pos + sizeof_CowOperation = Z.of_nat (S k) * sizeof_CowOperation)
      by (unfold pos; lia).
    assert (Hstop' : stop = Z.of_nat (S k) * sizeof_CowOperation
                            + Z.of_nat m * sizeof_CowOperation)
      by (unfold stop, pos; lia).
    assert (Hnext : HasNext it' = negb (m =? 0)%nat).
    { unfold HasNext, it', wrap64. cbn [pos_ end_].
      destruct m as [|m'].
      - replace (stop - (pos + sizeof_CowOperation)) with 0
          by (unfold stop; lia).
        cbn [Nat.eqb negb]. apply andb_false_iff. left. apply Z.ltb_ge.
        unfold stop. lia.
      - rewrite Z.mod_small by (unfold stop, two64, sizeof_CowOperation in *; lia).
        cbn [Nat.eqb negb]. apply andb_true_iff.
        split; [apply Z.ltb_lt|apply Z.leb_le];
          unfold stop, sizeof_CowOperation; lia. }
    rewrite Hnext, negb_involutive.
    assert (Hrest : drain (if (m =? 0)%nat
                           then mkCowOpIter ops (pos + sizeof_CowOperation) stop true
                           else it')
                    = Some (stored_records ops (S k) m)).
    { replace (if (m =? 0)%nat
               then mkCowOpIter ops (pos + sizeof_CowOperation) stop true else it')
        with (mkCowOpIter ops (Z.of_nat (S k) * sizeof_CowOperation)
                (Z.of_nat (S k) * sizeof_CowOperation
                 + Z.of_nat m * sizeof_CowOperation) (m =? 0)%nat).
      - apply IH; [rewrite <- Hstop'; exact Hlt|reflexivity].
      - rewrite <- Hstop', <- Hpos'. unfold it'. cbn [ops_ pos_ end_].
        destruct (m =? 0)%nat; reflexivity. }
    rewrite Hrest. reflexivity.
Qed.


Lemma slice_prefix_idem (p n : Z) (l : list byte) :
  slice 0 n (slice p n l) = slice p n l.
Proof.
  unfold slice. change (Z.to_nat 0) with 0%nat. rewrite skipn_0.
  rewrite firstn_firstn, Nat.min_id. reflexivity.
Qed.

Section ParseChecks.
Context {consts : CowConstants}.

(** C2, as the code has it.  [Parse] returns success only after checking
    [ops_offset < fd_size] and [ops_size <= fd_size - ops_offset] (that is,
    [ops_offset + ops_size <= fd_size], without overflow); once the header
    has been read, a violation of either makes it fail at a range check.
    A file of exactly [sizeof(CowHeader)] bytes is refused there whenever
    its [ops_offset] is at least [sizeof(CowHeader)]. *)
Theorem Parse_checks_ops_range (self : CowReader) (fd : Fd) :
  let f := fd_file fd in
  let h := file_header f in
  (forall r, Parse self fd = (Success, r) ->
     header_ r = h /\ fd_size_ r = file_size f /\
     ops_offset h < file_size f /\ ops_offset h + ops_size h <= file_size f) /\
  (healthy f -> sizeof_CowHeader <= file_size f ->
   file_size f <= ops_offset h \/ file_size f < ops_offset h + ops_size h ->
   exists e r, Parse self fd = (Failure e, r) /\ error_kind e = RangeError) /\
  (healthy f -> file_size f = sizeof_CowHeader ->
   sizeof_CowHeader <= ops_offset h ->
   exists r, Parse self fd = (Failure OpsOffsetTooLarge, r) /\
             error_kind OpsOffsetTooLarge = RangeError).
Proof.
  intros f h.
  assert (Hrange : healthy f -> sizeof_CowHeader <= file_size f ->
    file_size f <= ops_offset h \/ file_size f < ops_offset h + ops_size h ->
    exists e r, Parse self fd = (Failure e, r) /\ error_kind e = RangeError /\
                (file_size f <= ops_offset h -> e = OpsOffsetTooLarge)).
  { intros Hh Hlen Hbad.
    destruct (Parse_reads_header self fd Hh Hlen) as (fd3 & E1 & E2 & E3).
    destruct Hh as (_ & _ & _ & Hsz).
    unfold Parse. rewrite E1.
    destruct (file_size (fd_file fd) <? 0) eqn:T0;
      [apply Z.ltb_lt in T0; unfold file_size in T0; lia|].
    rewrite E2. cbn [Z.ltb Z.compare]. rewrite E3. cbn [negb].
    fold f. fold (file_header f). fold h.
    destruct (file_size f <=? ops_offset h) eqn:T1.
    - do 2 eexists. repeat split.
    - apply Z.leb_gt in T1.
      assert (Hoff : 0 <= ops_offset h) by apply le_decode_nonneg.
      assert (Hw : wrap64 (file_size f - ops_offset h) = file_size f - ops_offset h).
      { unfold wrap64. apply Z.mod_small. unfold two63, two64 in *. lia. }
      rewrite Hw.
      destruct (file_size f - ops_offset h <? ops_size h) eqn:T2.
      + do 2 eexists. repeat split. lia.
      + apply Z.ltb_ge in T2. lia. }
  split; [|split].
  - intros r HP. apply Parse_success_inv in HP
      as (_ & _ & _ & Hh & Hfs & Hoff & Hops & _).
    fold f in Hh, Hfs. fold h in Hh. rewrite Hh, Hfs in *. repeat split; lia.
  - intros Hh Hlen Hbad.
    destruct (Hrange Hh Hlen Hbad) as (e & r & HP & Hk & _). eauto.
  - intros Hh Hlen Hoff.
    destruct (Hrange Hh) as (e & r & HP & Hk & He); try lia.
    rewrite He in HP by lia. eauto.
Qed.

(** A header is accepted only with an all-zero stored checksum: the check
    compares the stored field with 32 zero bytes, because [SHA256] leaves
    its output buffer as it was. *)
Lemma Parse_accepts_only_zero_checksum (self : CowReader) (fd : Fd) (r : CowReader) :
  Parse self fd = (Success, r) ->
  header_checksum (header_ r) = zero_bytes 32.
Proof.
  intros HP. apply Parse_success_inv in HP
    as (_ & _ & _ & Hh & _ & _ & _ & _ & _ & _ & _ & Hm).
  unfold memcmp_ne in Hm. apply negb_false_iff, bytes_eqb_eq in Hm.
  rewrite Hh in *. unfold file_header, decode_header in *.
  cbn [header_checksum] in *.
  rewrite slice_prefix_idem in Hm. rewrite <- Hm. reflexivity.
Qed.

(** What [GetOpIter] does to the descriptor of a parsed reader, and what it
    hands to the iterator. *)
Lemma GetOpIter_inv (self0 : CowReader) (fd : Fd) (self self' : CowReader)
    (res : ErrSite + CowOpIter) :
  Parse self0 fd = (Success, self) ->
  GetOpIter self = (res, self') ->
  let h := header_ self in
  (exists calls,
     fd_log (fd_ self') =
       calls ++ SysLseek (ops_offset h) SEEK_SET :: fd_log (fd_ self) /\
     Forall (read_within (ops_offset h) (ops_offset h + ops_size h)) calls) /\
  (forall it, res = inr it ->
     it = CowOpIter_new (slice (ops_offset h) (ops_size h) (f_data (fd_file fd)))
                        (ops_size h) /\
     memcmp_ne (zero_bytes 32) (ops_checksum h) 32 = false).
Proof.
  intros HP HG h.
  apply Parse_success_inv in HP
    as ((_ & _ & _ & Hsz) & _ & Hfile & _ & Hfs & Hoff & Hops & _).
  fold h in Hoff, Hops.
  unfold GetOpIter in HG. fold h in HG.
  assert (Ho : to_off_t (ops_offset h) = ops_offset h).
  { unfold to_off_t. destruct (ops_offset h <? two63) eqn:T; [reflexivity|].
    apply Z.ltb_ge in T. lia. }
  rewrite Ho in HG.
  destruct (sys_lseek (fd_ self) (ops_offset h) SEEK_SET) as [r0 fd1] eqn:H1.
  apply sys_lseek_inv in H1 as (Hf1 & Hl1 & Hc1).
  destruct (r0 <? 0) eqn:T0.
  { injection HG as <- <-. cbn [fd_]. split.
    - exists []. split; [exact Hl1|constructor].
    - discriminate. }
  apply Z.ltb_ge in T0.
  assert (Hp1 : fd_pos fd1 = ops_offset h) by (destruct Hc1 as [->|(_ & _ & ? & ?)]; lia).
  clear Hc1.
  destruct (ReadFully fd1 (ops_size h)) as [[ok buf] fd2] eqn:H2.
  unfold ReadFully in H2.
  pose proof (ReadFully_loop_log _ _ _ _ _ _ _ H2) as (calls & Hl2 & Hall).
  assert (Hlog : exists calls,
             fd_log fd2 = calls ++ SysLseek (ops_offset h) SEEK_SET :: fd_log (fd_ self) /\
             Forall (read_within (ops_offset h) (ops_offset h + ops_size h)) calls).
  { exists calls. rewrite Hl2, Hl1. split; [reflexivity|].
    rewrite Hp1 in Hall. exact Hall. }
  destruct ok; cbn [negb] in HG.
  - apply ReadFully_loop_true in H2; [|lia].
    destruct H2 as (Hbuf & _ & _ & _).
    rewrite Hp1, Hf1, Hfile in Hbuf.
    replace (Z.max 0 (ops_size h)) with (ops_size h) in Hbuf by lia.
    cbn [app] in Hbuf. unfold SHA256 in HG.
    destruct (memcmp_ne (zero_bytes 32) (ops_checksum h) 32) eqn:Hm;
      injection HG as <- <-; cbn [fd_]; (split; [exact Hlog|]).
    + discriminate.
    + intros it Hit. injection Hit as <-. rewrite Hbuf. split; reflexivity.
  - injection HG as <- <-. cbn [fd_]. split; [exact Hlog|discriminate].
Qed.

(** [GetOpIter] succeeds only with an all-zero stored table checksum. *)
Lemma GetOpIter_accepts_only_zero_checksum
    (self0 : CowReader) (fd : Fd) (self self' : CowReader) (it : CowOpIter) :
  Parse self0 fd = (Success, self) ->
  GetOpIter self = (inr it, self') ->
  ops_checksum (header_ self) = zero_bytes 32.
Proof.
  intros HP HG.
  pose proof (GetOpIter_inv _ _ _ _ _ HP HG) as (_ & Hit).
  destruct (Hit it eq_refl) as (_ & Hm).
  apply Parse_success_inv in HP as (_ & _ & _ & Hh & _).
  unfold memcmp_ne in Hm. apply negb_false_iff, bytes_eqb_eq in Hm.
  rewrite Hh in *. unfold file_header, decode_header in *.
  cbn [ops_checksum] in *.
  rewrite slice_prefix_idem in Hm. rewrite <- Hm. reflexivity.
Qed.

End ParseChecks.

(** ** The checksum checks on concrete containers *)

(** The reference digest agrees with the FIPS 180-4 example for "abc". *)
Example sha256_digest_abc :
  map byte_val (sha256_digest [x61; x62; x63]) =
    [0xba; 0x78; 0x16; 0xbf; 0x8f; 0x01; 0xcf; 0xea;
     0x41; 0x41; 0x40; 0xde; 0x5d; 0xae; 0x22; 0x23;
     0xb0; 0x03; 0x61; 0xa3; 0x96; 0x17; 0x7a; 0x9c;
     0xb4; 0x10; 0xff; 0x61; 0xf2; 0x00; 0x15; 0xad].
Proof. vm_compute. reflexivity. Qed.

(** C3.  On the one-operation container the SHA-256 digest of the header
    (checksum field zeroed) is not zero; the container whose stored header
    checksum is zero is accepted by [Parse] all the same, and the
    container that stores the digest is refused as a checksum mismatch. *)
Theorem Parse_header_checksum_is_zero_test :
  let digest :=
    sha256_digest (encode_header (one_op_header (zero_bytes 32) (zero_bytes 32))) in
  digest <> zero_bytes 32 /\
  fst (Parse CowReader_new
         (open_file (one_op_file (zero_bytes 32) (zero_bytes 32) 4096))) = Success /\
  fst (Parse CowReader_new (open_file (one_op_file digest (zero_bytes 32) 4096)))
    = Failure HeaderChecksumInvalid /\
  error_kind HeaderChecksumInvalid = ChecksumMismatch.
Proof. vm_compute. repeat split. discriminate. Qed.

(** C4.  On the one-operation container the SHA-256 digest of the operation
    table is not zero; with a stored table checksum of zero [GetOpIter]
    succeeds, also after one bit of the table has been flipped, and with
    the digest stored [Parse] succeeds and [GetOpIter] reports a checksum
    mismatch. *)
Theorem GetOpIter_ops_checksum_is_zero_test :
  let digest := sha256_digest (encode_op one_op) in
  let parsed f := snd (Parse CowReader_new (open_file f)) in
  let zeros := one_op_file (zero_bytes 32) (zero_bytes 32) 4096 in
  let flipped :=
    cow_file (one_op_header (zero_bytes 32) (zero_bytes 32))
             (one_op_payload ++ encode_op (mkCowOperation 3 0 16 7 96)) 4096 in
  let exact := one_op_file (zero_bytes 32) digest 4096 in
  digest <> zero_bytes 32 /\
  fst (Parse CowReader_new (open_file zeros)) = Success /\
  fst (GetOpIter (parsed zeros)) =
    inr (CowOpIter_new (encode_op one_op) sizeof_CowOperation) /\
  fst (Parse CowReader_new (open_file flipped)) = Success /\
  fst (GetOpIter (parsed flipped)) =
    inr (CowOpIter_new (encode_op (mkCowOperation 3 0 16 7 96)) sizeof_CowOperation) /\
  fst (Parse CowReader_new (open_file exact)) = Success /\
  fst (GetOpIter (parsed exact)) = inl OpsChecksumMismatch /\
  error_kind OpsChecksumMismatch = ChecksumMismatch.
Proof. vm_compute. repeat split. discriminate. Qed.

(* ===================================================================== *)
(** * Part XI: the operation iterator                                     *)
(* ===================================================================== *)

(** C5.  For a buffer length that is a multiple of [sizeof(CowOperation)]
    the walk over a fresh iterator yields the [len / sizeof(CowOperation)]
    stored records in order, each overlaid on bytes inside the buffer, and
    no [CHECK] fires; with [len = 0] the iterator is done from the start.
    [GetOpIter] on a parsed reader seeks to [ops_offset], reads nothing
    outside [ops_offset, ops_offset + ops_size), and builds the iterator
    over exactly those bytes of the file. *)
Theorem CowOpIter_yields_every_record :
  (forall (ops : list byte) (len : Z),
     0 <= len < two64 -> len mod sizeof_CowOperation = 0 ->
     let n := Z.to_nat (len / sizeof_CowOperation) in
     drain (CowOpIter_new ops len) = Some (stored_records ops 0 n) /\
     List.length (stored_records ops 0 n) = n /\
     (forall k, (k < n)%nat ->
        nth_error (stored_records ops 0 n) k = Some (record_at ops k) /\
        Z.of_nat k * sizeof_CowOperation + sizeof_CowOperation <= len) /\
     (len = 0 -> Done (CowOpIter_new ops len) = true)) /\
  (forall (consts : CowConstants) self0 fd self res self',
     Parse self0 fd = (Success, self) ->
     GetOpIter self = (res, self') ->
     let h := header_ self in
     (exists calls,
        fd_log (fd_ self') =
          calls ++ SysLseek (ops_offset h) SEEK_SET :: fd_log (fd_ self) /\
        Forall (read_within (ops_offset h) (ops_offset h + ops_size h)) calls) /\
     (forall it, res = inr it ->
        it = CowOpIter_new
               (slice (ops_offset h) (ops_size h) (f_data (fd_file fd)))
               (ops_size h))).
Proof.
  split.
  - intros ops len Hlen Hmod n.
    assert (Hdiv : len = Z.of_nat n * sizeof_CowOperation).
    { unfold n. rewrite Z2Nat.id by (apply Z.div_pos; unfold sizeof_CowOperation; lia).
      apply Z.div_exact in Hmod; unfold sizeof_CowOperation in *; lia. }
    clearbody n.
    assert (Hlenrec : List.length (stored_records ops 0 n) = n).
    { unfold stored_records. rewrite length_map, length_seq. reflexivity. }
    split; [|split; [exact Hlenrec|split]].
    + unfold CowOpIter_new.
      assert (Hdone : negb (HasNext (mkCowOpIter ops 0 (0 + len) false))
                      = (n =? 0)%nat).
      { unfold HasNext, wrap64. cbn [pos_ end_].
        replace (0 + len - 0) with len by lia.
        rewrite Z.mod_small by lia.
        destruct n as [|n']; cbn [Nat.eqb].
        - replace len with 0 by lia. reflexivity.
        - apply negb_false_iff, andb_true_iff.
          split; [apply Z.ltb_lt|apply Z.leb_le]; unfold sizeof_CowOperation in *; lia. }
      rewrite Hdone.
      pose proof (drain_from ops n 0 (n =? 0)%nat) as Hd.
      cbn zeta in Hd. change (Z.of_nat 0 * sizeof_CowOperation) with 0 in Hd.
      rewrite <- Hdiv in Hd. apply Hd; [lia|reflexivity].
    + intros k Hk. split.
      * unfold stored_records. rewrite nth_error_map, nth_error_seq.
        apply Nat.ltb_lt in Hk. rewrite Hk. reflexivity.
      * unfold sizeof_CowOperation in *. lia.
    + intros H0. unfold CowOpIter_new, Done, HasNext. cbn [done_ pos_ end_].
      rewrite H0. reflexivity.
  - intros consts self0 fd self res self' HP HG h.
    pose proof (GetOpIter_inv _ _ _ _ _ HP HG) as (Hlog & Hit).
    split; [exact Hlog|]. intros it Hres. apply Hit. exact Hres.
Qed.

(* ===================================================================== *)
(** * Part XII: the client                                                *)
(* ===================================================================== *)

Section ClientFacts.
Context {cfg : ClientConstants} {W : Type} {env : SocketEnv W}.

Lemma Sendmsg_returns (msg : string) (size : Z) (s : Client W) :
  exists r, Sendmsg msg size s
            = (Ret r, mkClient (sockfd_ s)
                               (snd (sys_send (sockfd_ s) msg size (world s)))) /\
            (r = 0 \/ r = -1).
Proof.
  unfold Sendmsg. destruct (sys_send _ _ _ _) as [n w]. cbn [snd].
  destruct (n <? 0); [exists (-1); auto|].
  destruct (n <? size); [exists (-1); auto|exists 0; auto].
Qed.

Lemma Receivemsg_returns (s : Client W) :
  exists str s', Receivemsg s = (Ret str, s') /\ sockfd_ s' = sockfd_ s.
Proof.
  unfold Receivemsg. destruct (sys_select _ _) as [r1 w1].
  destruct (r1 =? -1); [eauto|]. destruct (r1 =? 0); [eauto|].
  destruct (sys_recv _ _ _) as [[r2 msg] w2].
  destruct (r2 <? 0); [eauto|]. destruct (r2 =? 0); eauto.
Qed.

(** A failed or timed-out [select], a failed [recv] and a peer that has
    disconnected all read as the reply "fail". *)
Lemma Receivemsg_io_error (s : Client W) :
  let sel := sys_select (sockfd_ s + 1) (world s) in
  fst sel = -1 \/ fst sel = 0 \/
  fst (fst (sys_recv (sockfd_ s) PACKET_SIZE (snd sel))) <= 0 ->
  fst (Receivemsg s) = Ret "fail".
Proof.
  unfold Receivemsg. destruct (sys_select _ _) as [r1 w1]. cbn [fst snd].
  intros H.
  destruct (r1 =? -1) eqn:T1; [reflexivity|].
  destruct (r1 =? 0) eqn:T2; [reflexivity|].
  apply Z.eqb_neq in T1, T2.
  destruct (sys_recv _ _ _) as [[r2 msg] w2]. cbn [fst] in H.
  destruct (r2 <? 0) eqn:T3; [reflexivity|].
  destruct (r2 =? 0) eqn:T4; [reflexivity|].
  apply Z.ltb_ge in T3. apply Z.eqb_neq in T4. lia.
Qed.

(** One attempt, case by case on what the exchange produced. *)
Lemma ConnectToServerSocket_exchange (name : string) (s : Client W) :
  forall fd w, socket_local_client name (world s) = (fd, w) ->
  (fd < 0 -> ConnectToServerSocket name s = (Ret false, mkClient fd w)) /\
  (0 <= fd ->
   forall r s2, Sendmsg "query" (msg_size "query") (mkClient fd w) = (Ret r, s2) ->
   (r < 0 -> ConnectToServerSocket name s = (Ret false, closed s2)) /\
   (0 <= r ->
    forall str s3, Receivemsg s2 = (Ret str, s3) ->
    ConnectToServerSocket name s =
      if found (find str "fail") then (Ret false, closed s3)
      else if found (find str "passive") then (Ret false, closed s3)
      else if found (find str "active") then (Ret true, s3)
      else (Abort, s3))).
Proof.
  intros fd w Hsock. unfold ConnectToServerSocket. rewrite Hsock. split.
  - intros Hfd. apply Z.ltb_lt in Hfd. rewrite Hfd. reflexivity.
  - intros Hfd. apply Z.ltb_ge in Hfd. rewrite Hfd.
    intros r s2 Hsend. split.
    + intros Hr. unfold bind at 1. rewrite Hsend.
      apply Z.ltb_lt in Hr. rewrite Hr. reflexivity.
    + intros Hr str s3 Hrecv. unfold bind at 1. rewrite Hsend.
      apply Z.ltb_ge in Hr. rewrite Hr.
      unfold bind at 1. rewrite Hrecv.
      destruct (found (find str "fail")); [reflexivity|].
      destruct (found (find str "passive")); [reflexivity|].
      unfold bind, CHECK, ret.
      destruct (found (find str "active")); reflexivity.
Qed.

(** An attempt that returns true has received a reply that holds "active"
    and neither "fail" nor "passive", and still holds its socket. *)
Lemma ConnectToServerSocket_true (name : string) (s0 s1 : Client W) :
  ConnectToServerSocket name s0 = (Ret true, s1) ->
  exists s2 str,
    Receivemsg s2 = (Ret str, s1) /\
    found (find str "fail") = false /\
    found (find str "passive") = false /\
    found (find str "active") = true /\
    0 <= sockfd_ s1.
Proof.
  intros Hconn.
  destruct (socket_local_client name (world s0)) as [fd w] eqn:Hsock.
  destruct (ConnectToServerSocket_exchange name s0 fd w Hsock) as (Hneg & Hpos).
  destruct (Z_lt_le_dec fd 0) as [Hfd|Hfd].
  { rewrite (Hneg Hfd) in Hconn. discriminate. }
  destruct (Sendmsg_returns "query" (msg_size "query") (mkClient fd w))
    as (r & Hsend & Hr01).
  destruct (Hpos Hfd r _ Hsend) as (Hsf & Hrecv).
  destruct Hr01 as [->| ->]; [|rewrite Hsf in Hconn by lia; discriminate].
  match type of Hsend with _ = (_, ?s2) =>
    destruct (Receivemsg_returns s2) as (str & s3 & Hrcv & Hsfd);
    rewrite (Hrecv ltac:(lia) str s3 Hrcv) in Hconn;
    exists s2, str
  end.
  destruct (found (find str "fail")); [discriminate|].
  destruct (found (find str "passive")); [discriminate|].
  destruct (found (find str "active")); [|discriminate].
  injection Hconn as <-. rewrite Hsfd. cbn [sockfd_]. auto.
Qed.

(** C8.  [ConnectToServer] tries the first-stage socket and, only when that
    attempt returned false, the second-stage socket from the state the
    first attempt left; it returns false only when both attempts did.  An
    attempt returns true only on a reply that holds "active" and neither
    "fail" nor "passive", and leaves that connection open; a reply that
    holds "fail" or "passive" and a failed send close the connection and
    return false; a socket that cannot be opened returns false. *)
Theorem ConnectToServer_fallback_chain (s : Client W) :
  let first := ConnectToServerSocket GetSocketNameFirstStage s in
  let second := ConnectToServerSocket GetSocketNameSecondStage (snd first) in
  (fst first = Ret true -> ConnectToServer s = first) /\
  (fst first = Ret false -> ConnectToServer s = second) /\
  (forall s', ConnectToServer s = (Ret false, s') ->
     fst first = Ret false /\ second = (Ret false, s')) /\
  (forall name s0 s1,
     ConnectToServerSocket name s0 = (Ret true, s1) ->
     exists s2 str,
       Receivemsg s2 = (Ret str, s1) /\
       found (find str "fail") = false /\
       found (find str "passive") = false /\
       found (find str "active") = true /\
       0 <= sockfd_ s1) /\
  (forall name s0 fd w,
     socket_local_client name (world s0) = (fd, w) ->
     (fd < 0 -> ConnectToServerSocket name s0 = (Ret false, mkClient fd w)) /\
     (0 <= fd ->
      forall r s2,
        Sendmsg "query" (msg_size "query") (mkClient fd w) = (Ret r, s2) ->
        (r < 0 -> ConnectToServerSocket name s0 = (Ret false, closed s2)) /\
        (0 <= r ->
         forall str s3,
           Receivemsg s2 = (Ret str, s3) ->
           found (find str "fail") = true \/ found (find str "passive") = true ->
           ConnectToServerSocket name s0 = (Ret false, closed s3)))) /\
  (forall s2,
     let sel := sys_select (sockfd_ s2 + 1) (world s2) in
     fst sel = -1 \/ fst sel = 0 \/
     fst (fst (sys_recv (sockfd_ s2) PACKET_SIZE (snd sel))) <= 0 ->
     fst (Receivemsg s2) = Ret "fail").
Proof.
  intros first second.
  assert (Hchain :
    (fst first = Ret true -> ConnectToServer s = first) /\
    (fst first = Ret false -> ConnectToServer s = second) /\
    (forall s', ConnectToServer s = (Ret false, s') ->
       fst first = Ret false /\ second = (Ret false, s'))).
  { unfold ConnectToServer, bind. fold first.
    destruct first as [[[|] | | |] s1] eqn:Hfirst; cbn [fst snd] in *;
      try (fold second; destruct second as [[[|] | | |] s2] eqn:Hsecond);
      cbn [ret];
      (split; [intros H; try discriminate H; reflexivity|]);
      (split; [intros H; try discriminate H; reflexivity|]);
      intros s' H; try discriminate H.
    injection H as <-. split; reflexivity. }
  destruct Hchain as (H1 & H2 & H3).
  split; [exact H1|]. split; [exact H2|]. split; [exact H3|].
  split; [exact ConnectToServerSocket_true|].
  split; [|exact Receivemsg_io_error].
  intros name s0 fd w Hsock.
  destruct (ConnectToServerSocket_exchange name s0 fd w Hsock) as (Hneg & Hpos).
  split; [exact Hneg|]. intros Hfd r s2 Hsend.
  destruct (Hpos Hfd r s2 Hsend) as (Hsf & Hrecv).
  split; [exact Hsf|]. intros Hr str s3 Hrcv Hcls.
  rewrite (Hrecv Hr str s3 Hrcv).
  destruct (found (find str "fail")); [reflexivity|].
  destruct Hcls as [Hc|Hc]; [discriminate|rewrite Hc; reflexivity].
Qed.

End ClientFacts.

Section ClientSteps.
Context {cfg : ClientConstants} {W : Type} {env : SocketEnv W}.

(** C10.  A reply that holds "fail" is a failure whatever else it holds:
    the attempt on a socket returns false (and closes), [InitializeSnapuserd]
    returns -1, and [RestartSnapuserd] returns -1 at its terminate-request
    step.  "passive", "active" and "success" are looked for only in a reply
    without "fail": an attempt that returned true read a reply without
    "fail".  When the reply at the second socket holds "fail" as well,
    [ConnectToServer] as a whole returns false. *)
Theorem fail_is_tested_first (str : string) :
  found (find str "fail") = true ->
  (forall name s fd w s2 s3,
     socket_local_client name (world s) = (fd, w) -> 0 <= fd ->
     Sendmsg "query" (msg_size "query") (mkClient fd w) = (Ret 0, s2) ->
     Receivemsg s2 = (Ret str, s3) ->
     ConnectToServerSocket name s = (Ret false, closed s3)) /\
  (forall cow base control s s1 s2 s3,
     let msg := ("start," ++ cow ++ "," ++ base ++ "," ++ control)%string in
     ConnectToServer s = (Ret true, s1) ->
     Sendmsg msg (msg_size msg) s1 = (Ret 0, s2) ->
     Receivemsg s2 = (Ret str, s3) ->
     InitializeSnapuserd cow base control s = (Ret (-1), s3)) /\
  (forall vec s s1 s2 s3,
     ConnectToServer s = (Ret true, s1) ->
     Sendmsg "terminate-request" (msg_size "terminate-request") s1 = (Ret 0, s2) ->
     Receivemsg s2 = (Ret str, s3) ->
     RestartSnapuserd vec s = (Ret (-1), s3)) /\
  (forall name s s1,
     ConnectToServerSocket name s = (Ret true, s1) ->
     exists s2 reply,
       Receivemsg s2 = (Ret reply, s1) /\ found (find reply "fail") = false) /\
  (forall s fd1 w1 s2 s3 fd2 w2 s4 s5 str',
     socket_local_client GetSocketNameFirstStage (world s) = (fd1, w1) ->
     0 <= fd1 ->
     Sendmsg "query" (msg_size "query") (mkClient fd1 w1) = (Ret 0, s2) ->
     Receivemsg s2 = (Ret str, s3) ->
     socket_local_client GetSocketNameSecondStage (world (closed s3)) = (fd2, w2) ->
     0 <= fd2 ->
     Sendmsg "query" (msg_size "query") (mkClient fd2 w2) = (Ret 0, s4) ->
     Receivemsg s4 = (Ret str', s5) ->
     found (find str' "fail") = true ->
     ConnectToServer s = (Ret false, closed s5)).
Proof.
  intros Hfail.
  assert (Hattempt : forall reply, found (find reply "fail") = true ->
    forall name s fd w s2 s3,
      socket_local_client name (world s) = (fd, w) -> 0 <= fd ->
      Sendmsg "query" (msg_size "query") (mkClient fd w) = (Ret 0, s2) ->
      Receivemsg s2 = (Ret reply, s3) ->
      ConnectToServerSocket name s = (Ret false, closed s3)).
  { intros reply Hf name s fd w s2 s3 Hsock Hfd Hsend Hrecv.
    destruct (ConnectToServerSocket_exchange name s fd w Hsock) as (_ & Hpos).
    destruct (Hpos Hfd 0 s2 Hsend) as (_ & Hr).
    rewrite (Hr ltac:(lia) reply s3 Hrecv), Hf. reflexivity. }
  split; [|split; [|split; [|split]]]; cycle 4.
  { intros s fd1 w1 s2 s3 fd2 w2 s4 s5 str' K1 K2 K3 K4 K5 K6 K7 K8 Hfail'.
    unfold ConnectToServer. unfold bind at 1.
    rewrite (Hattempt str Hfail _ _ _ _ _ _ K1 K2 K3 K4).
    unfold bind at 1.
    rewrite (Hattempt str' Hfail' _ _ _ _ _ _ K5 K6 K7 K8). reflexivity. }
  - intros name s fd w s2 s3 Hsock Hfd Hsend Hrecv.
    destruct (ConnectToServerSocket_exchange name s fd w Hsock) as (_ & Hpos).
    destruct (Hpos Hfd 0 s2 Hsend) as (_ & Hr).
    rewrite (Hr ltac:(lia) str s3 Hrecv), Hfail. reflexivity.
  - intros cow base control s s1 s2 s3 msg Hconn Hsend Hrecv.
    unfold InitializeSnapuserd. fold msg.
    unfold bind at 1. rewrite Hconn. cbn [negb].
    unfold bind at 1. rewrite Hsend. cbn [Z.ltb Z.compare].
    unfold bind at 1. rewrite Hrecv, Hfail. reflexivity.
  - intros vec s s1 s2 s3 Hconn Hsend Hrecv.
    unfold RestartSnapuserd.
    unfold bind at 1. rewrite Hconn. cbn [negb].
    unfold bind at 1. rewrite Hsend. cbn [Z.ltb Z.compare].
    unfold bind at 1. rewrite Hrecv, Hfail. reflexivity.
  - intros name s s1 Hconn.
    destruct (ConnectToServerSocket_true name s s1 Hconn)
      as (s2 & reply & Hrecv & Hnf & _).
    exists s2, reply. auto.
Qed.

End ClientSteps.

Section InRange.
Context {cfg : ClientConstants} {W : Type} {env : SocketEnv W}.

Lemma in_range_ret {A} (a : A) : in_range (W:=W) (ret a).
Proof. intros s. discriminate. Qed.

Lemma in_range_bind {A B} (m : M W A) (k : A -> M W B) :
  in_range m -> (forall a, in_range (k a)) -> in_range (bind m k).
Proof.
  intros Hm Hk s. unfold bind. specialize (Hm s).
  destruct (m s) as [[a| | |] s']; cbn [fst] in *.
  - apply Hk.
  - discriminate.
  - congruence.
  - discriminate.
Qed.

Lemma in_range_step (f : Client W -> Client W) :
  in_range (fun s => (Ret tt, f s)).
Proof. intros s. discriminate. Qed.

Lemma in_range_Sendmsg msg size : in_range (Sendmsg msg size).
Proof.
  intros s. destruct (Sendmsg_returns msg size s) as (r & -> & _). discriminate.
Qed.

Lemma in_range_Receivemsg : in_range Receivemsg.
Proof.
  intros s. destruct (Receivemsg_returns s) as (str & s' & -> & _). discriminate.
Qed.

Lemma in_range_CHECK b : in_range (W:=W) (CHECK b).
Proof. intros s. unfold CHECK. destruct b; discriminate. Qed.

Lemma in_range_if {A} (b : bool) (m1 m2 : M W A) :
  in_range m1 -> in_range m2 -> in_range (if b then m1 else m2).
Proof. destruct b; auto. Qed.

Create HintDb in_range discriminated.
#[local] Hint Resolve in_range_ret in_range_step in_range_Sendmsg
  in_range_Receivemsg in_range_CHECK : in_range.

Ltac in_range_tac :=
  repeat first
    [ apply in_range_bind; [|intros ?]
    | apply in_range_if
    | solve [auto with in_range]
    | apply in_range_step ].

Lemma in_range_ConnectToServerSocket name : in_range (ConnectToServerSocket name).
Proof.
  intros s. unfold ConnectToServerSocket.
  destruct (socket_local_client name (world s)) as [fd w].
  destruct (fd <? 0); [discriminate|].
  assert (H : in_range
    (sendRet <- Sendmsg "query" (msg_size "query") ;;
     if sendRet <? 0 then DisconnectFromServer ;;; ret false
     else
       str <- Receivemsg ;;
       if found (find str "fail") then DisconnectFromServer ;;; ret false
       else if found (find str "passive") then DisconnectFromServer ;;; ret false
       else CHECK (found (find str "active")) ;;; ret true)).
  { unfold DisconnectFromServer. in_range_tac. }
  apply H.
Qed.

Lemma in_range_ConnectToServer : in_range ConnectToServer.
Proof.
  unfold ConnectToServer.
  apply in_range_bind; [apply in_range_ConnectToServerSocket|intros r1].
  apply in_range_if; [apply in_range_ret|].
  apply in_range_bind; [apply in_range_ConnectToServerSocket|intros r2].
  in_range_tac.
Qed.

Lemma in_range_connect_retry_loop n : in_range (connect_retry_loop n).
Proof.
  induction n as [|n IH]; cbn [connect_retry_loop]; [apply in_range_ret|].
  apply in_range_bind; [apply in_range_ConnectToServer|intros c].
  apply in_range_if; (apply in_range_bind; [apply in_range_step|intros _]);
    [exact IH|apply in_range_ret].
Qed.

Lemma in_range_StartSnapuserdaemon name : in_range (StartSnapuserdaemon name).
Proof.
  unfold StartSnapuserdaemon. apply in_range_bind.
  - intros s. destruct (sys_fork (world s)) as [pid w].
    destruct (pid =? 0); [|discriminate].
    destruct (sys_execv _ _ _) as [[r|] w']; discriminate.
  - intros b. apply in_range_if;
      [apply in_range_ret|apply in_range_connect_retry_loop].
Qed.

Lemma in_range_InitializeSnapuserd cow base control :
  in_range (InitializeSnapuserd cow base control).
Proof.
  unfold InitializeSnapuserd, DisconnectFromServer.
  apply in_range_bind; [apply in_range_ConnectToServer|intros c].
  in_range_tac.
Qed.

Lemma vec_at_in_range (v : list string) (i : nat) :
  (i < List.length v)%nat ->
  exists x, forall s : Client W, vec_at v i s = (Ret x, s).
Proof.
  intros Hi. unfold vec_at.
  destruct (nth_error v i) as [x|] eqn:Hn.
  - exists x. reflexivity.
  - apply nth_error_None in Hn. lia.
Qed.

Lemma in_range_initialize_devices (vec : list (list string)) :
  triples vec -> in_range (initialize_devices vec).
Proof.
  induction 1 as [|v rest Hv _ IH]; cbn [initialize_devices];
    [apply in_range_ret|].
  destruct (vec_at_in_range v 0) as (x0 & H0); [lia|].
  destruct (vec_at_in_range v 1) as (x1 & H1); [lia|].
  destruct (vec_at_in_range v 2) as (x2 & H2); [lia|].
  intros s. unfold bind at 1. rewrite H0.
  unfold bind at 1. rewrite H1. unfold bind at 1. rewrite H2.
  revert s. apply in_range_bind;
    [apply in_range_InitializeSnapuserd|intros _; exact IH].
Qed.

Lemma in_range_RestartSnapuserd (vec : list (list string)) :
  triples vec -> in_range (RestartSnapuserd vec).
Proof.
  intros Hvec. unfold RestartSnapuserd, DisconnectFromServer.
  apply in_range_bind; [apply in_range_ConnectToServer|intros c].
  apply in_range_if; [apply in_range_ret|].
  apply in_range_bind; [apply in_range_Sendmsg|intros r].
  apply in_range_if; [apply in_range_ret|].
  apply in_range_bind; [apply in_range_Receivemsg|intros str].
  apply in_range_if; [apply in_range_ret|].
  apply in_range_bind; [apply in_range_CHECK|intros _].
  apply in_range_bind; [apply in_range_step|intros _].
  apply in_range_bind; [apply in_range_StartSnapuserdaemon|intros st].
  apply in_range_if; [apply in_range_ret|].
  apply in_range_bind; [apply in_range_initialize_devices; exact Hvec|intros _].
  apply in_range_ret.
Qed.

End InRange.

(** ** Against the agreeing daemon every step before the device loop
    succeeds, so the loop is reached and runs to the first short vector. *)
Section Agreeing.
Context {cfg : ClientConstants}.

Lemma agreeing_Sendmsg msg (s : Client unit) :
  Sendmsg msg (msg_size msg) s = (Ret 0, mkClient (sockfd_ s) tt).
Proof.
  unfold Sendmsg. cbn [sys_send AgreeingEnv]. destruct s as [fd []].
  cbn [sockfd_ world]. unfold msg_size.
  destruct (Z.of_nat (String.length msg) <? 0) eqn:T1;
    [apply Z.ltb_lt in T1; lia|].
  rewrite Z.ltb_irrefl. reflexivity.
Qed.

Lemma agreeing_ConnectToServer (s : Client unit) :
  ConnectToServer s = (Ret true, mkClient 3 tt).
Proof.
  unfold ConnectToServer, bind, ConnectToServerSocket.
  cbn [socket_local_client AgreeingEnv]. cbn [Z.ltb Z.compare].
  unfold bind. rewrite agreeing_Sendmsg. reflexivity.
Qed.

Lemma agreeing_InitializeSnapuserd cow base control (s : Client unit) :
  InitializeSnapuserd cow base control s = (Ret 0, mkClient 3 tt).
Proof.
  unfold InitializeSnapuserd. unfold bind at 1.
  rewrite agreeing_ConnectToServer. cbn [negb].
  unfold bind at 1. rewrite agreeing_Sendmsg. reflexivity.
Qed.

Lemma agreeing_initialize_devices (vec : list (list string)) :
  forall s : Client unit,
    triples vec \/ fst (initialize_devices vec s) = OutOfRange.
Proof.
  induction vec as [|v rest IH]; intros s; [left; constructor|].
  destruct (le_lt_dec 3 (List.length v)) as [Hlen|Hlen].
  - cbn [initialize_devices].
    destruct (vec_at_in_range (W:=unit) v 0) as (x0 & H0); [lia|].
    destruct (vec_at_in_range (W:=unit) v 1) as (x1 & H1); [lia|].
    destruct (vec_at_in_range (W:=unit) v 2) as (x2 & H2); [lia|].
    unfold bind at 1. rewrite H0. unfold bind at 1. rewrite H1.
    unfold bind at 1. rewrite H2. unfold bind at 1.
    rewrite agreeing_InitializeSnapuserd.
    destruct (IH (mkClient 3 tt)) as [Hrest|Hoor].
    + left. constructor; assumption.
    + right. exact Hoor.
  - right. cbn [initialize_devices]. unfold bind, vec_at.
    destruct v as [|a [|b [|c v']]]; cbn [List.length] in Hlen; try lia;
      reflexivity.
Qed.

Lemma agreeing_RestartSnapuserd (vec : list (list string)) (s : Client unit) :
  (0 < MAX_CONNECT_RETRY_COUNT)%nat ->
  triples vec \/ fst (RestartSnapuserd vec s) = OutOfRange.
Proof.
  intros Hmax. unfold RestartSnapuserd.
  unfold bind at 1. rewrite agreeing_ConnectToServer. cbn [negb].
  unfold bind at 1. rewrite agreeing_Sendmsg. cbn [Z.ltb Z.compare].
  unfold bind at 1. cbn [Receivemsg]. unfold Receivemsg.
  cbn [sys_select sys_recv AgreeingEnv sockfd_ world].
  cbn [Z.eqb Z.ltb Z.compare Pos.compare Pos.compare_cont Pos.eqb].
  change (found (find "active success" "fail")) with false.
  change (found (find "active success" "success")) with true.
  cbv iota. unfold bind at 1. unfold CHECK at 1.
  unfold bind at 1. unfold DisconnectFromServer at 1.
  unfold bind at 1. unfold StartSnapuserdaemon.
  unfold bind at 1. cbn [sys_fork sys_close AgreeingEnv sockfd_ world].
  cbn [Z.eqb]. unfold ret at 1.
  destruct MAX_CONNECT_RETRY_COUNT as [|k]; [lia|].
  cbn [connect_retry_loop]. unfold bind at 1.
  rewrite agreeing_ConnectToServer. cbn [negb]. unfold bind at 1.
  unfold ret at 1. cbn [Z.ltb Z.compare].
  cbn [sys_close AgreeingEnv sockfd_ world].
  unfold bind at 1.
  destruct (agreeing_initialize_devices vec (mkClient 3 tt)) as [Hv|Hoor];
    [left; exact Hv|right].
  destruct (initialize_devices vec (mkClient 3 tt)) as [[u| | |] s'];
    cbn [fst] in *; try discriminate. reflexivity.
Qed.

(** C9.  [RestartSnapuserd] indexes elements 0, 1 and 2 of every inner
    vector without a length check: no run of it, in any environment, ends
    in an out-of-range index exactly when every inner vector holds at least
    three strings.  (The loop is reachable at all only when
    [MAX_CONNECT_RETRY_COUNT] is positive.) *)
Theorem RestartSnapuserd_needs_triples (vec : list (list string)) :
  (0 < MAX_CONNECT_RETRY_COUNT)%nat ->
  ((forall (W : Type) (env : SocketEnv W) (s : Client W),
      fst (RestartSnapuserd vec s) <> OutOfRange)
   <-> Forall (fun v => (3 <= List.length v)%nat) vec).
Proof.
  intros Hmax. split.
  - intros Hnever.
    destruct (agreeing_RestartSnapuserd vec (mkClient 0 tt) Hmax) as [Hv|Hoor];
      [exact Hv|].
    exfalso. exact (Hnever unit AgreeingEnv (mkClient 0 tt) Hoor).
  - intros Hvec W env s. apply in_range_RestartSnapuserd. exact Hvec.
Qed.

End Agreeing.

(** C7.  Against a second-stage daemon that answers the [start] message
    with "fail", [InitializeSnapuserd] returns -1, yet [RestartSnapuserd]
    returns 0: the loop drops what [InitializeSnapuserd] returns.  The log
    ends with the refused [start]. *)
Theorem RestartSnapuserd_drops_initialize_result :
  fst (InitializeSnapuserd "cow" "base" "ctrl"
         (scripted ["passive"; "active"; "fail"])) = Ret (-1) /\
  fst (RestartSnapuserd [["cow"; "base"; "ctrl"]] (scripted start_refused)) = Ret 0 /\
  firstn 2 (m_log (world (snd (RestartSnapuserd [["cow"; "base"; "ctrl"]]
                                 (scripted start_refused)))))
    = [MRecv "fail"; MSend "start,cow,base,ctrl"].
Proof. vm_compute. repeat split. Qed.

(* ===================================================================== *)
(** * Part XIII: the statements at concrete inputs                        *)
(* ===================================================================== *)

(** The one-operation container, parsed. *)
Lemma one_op_file_parses (chunk : Z) :
  chunk = 4096 \/ chunk = 8 ->
  let fd := open_file (one_op_file (zero_bytes 32) (zero_bytes 32) chunk) in
  Parse CowReader_new fd = (Success, snd (Parse CowReader_new fd)).
Proof. intros [-> | ->]; vm_compute; reflexivity. Qed.

(** C1 at a pair whose sum wraps: offset 100, length 2^64 - 50. *)
Lemma GetRawBytes_rejects_out_of_range_witness :
  let fd := open_file (one_op_file (zero_bytes 32) (zero_bytes 32) 4096) in
  let r := snd (Parse CowReader_new fd) in
  two64 <= 100 + (two64 - 50) /\
  GetRawBytes r 100 (two64 - 50) = (inl InvalidDataOffset, r) /\
  error_kind InvalidDataOffset = RangeError /\
  fd_log (fd_ (snd (GetRawBytes r 100 (two64 - 50)))) = fd_log (fd_ r).
Proof.
  intros fd r. split; [unfold two64; lia|].
  apply (GetRawBytes_rejects_out_of_range CowReader_new fd r 100 (two64 - 50)).
  - vm_compute. reflexivity.
  - unfold two64. lia.
  - unfold two64. lia.
  - right. right. right. right. unfold two64. lia.
Defined.

(** C2 as stated fails: a file of exactly [sizeof(CowHeader)] bytes whose
    header puts [ops_offset] at 0 is accepted, and so is a container whose
    operation table is one byte long. *)
Lemma Parse_accepts_header_only_file :
  file_size header_only_file = sizeof_CowHeader /\
  ops_offset (file_header header_only_file) < sizeof_CowHeader /\
  fst (Parse CowReader_new (open_file header_only_file)) = Success /\
  ops_size (file_header ragged_table_file) mod sizeof_CowOperation <> 0 /\
  fst (Parse CowReader_new (open_file ragged_table_file)) = Success.
Proof. vm_compute. repeat split; discriminate. Qed.

(** C2 at the one-operation container, at the same container cut one byte
    short of its operation table, and at a bare header that points its
    table at its own end. *)
Lemma Parse_checks_ops_range_witness :
  (let f := one_op_file (zero_bytes 32) (zero_bytes 32) 4096 in
   let r := snd (Parse CowReader_new (open_file f)) in
   header_ r = file_header f /\ fd_size_ r = file_size f /\
   ops_offset (file_header f) < file_size f /\
   ops_offset (file_header f) + ops_size (file_header f) <= file_size f) /\
  (exists e r,
     Parse CowReader_new (open_file truncated_file) = (Failure e, r) /\
     error_kind e = RangeError) /\
  (exists r,
     Parse CowReader_new (open_file bare_header_file)
       = (Failure OpsOffsetTooLarge, r) /\
     error_kind OpsOffsetTooLarge = RangeError).
Proof.
  split; [|split].
  - intros f r.
    exact (proj1 (Parse_checks_ops_range CowReader_new (open_file f)) r
             (one_op_file_parses 4096 (or_introl eq_refl))).
  - apply (proj1 (proj2 (Parse_checks_ops_range CowReader_new (open_file truncated_file)))).
    + unfold healthy. vm_compute. repeat split; reflexivity.
    + vm_compute. discriminate.
    + right. vm_compute. reflexivity.
  - apply (proj2 (proj2 (Parse_checks_ops_range CowReader_new (open_file bare_header_file)))).
    + unfold healthy. vm_compute. repeat split; reflexivity.
    + vm_compute. reflexivity.
    + vm_compute. discriminate.
Defined.

(** C5 at a buffer of two records, and at the one-operation container. *)
Lemma CowOpIter_yields_every_record_witness :
  let ops := encode_op one_op ++ encode_op (mkCowOperation 1 0 0 8 7) in
  drain (CowOpIter_new ops 56) = Some [one_op; mkCowOperation 1 0 0 8 7] /\
  (let fd := open_file (one_op_file (zero_bytes 32) (zero_bytes 32) 8) in
   let self := snd (Parse CowReader_new fd) in
   exists calls,
     fd_log (fd_ (snd (GetOpIter self))) =
       calls ++ SysLseek 112 SEEK_SET :: fd_log (fd_ self) /\
     Forall (read_within 112 140) calls).
Proof.
  intros ops. split.
  - assert (H56 : 0 <= 56 < two64) by (unfold two64; lia).
    exact (proj1 (proj1 CowOpIter_yields_every_record ops 56 H56 eq_refl)).
  - intros fd self.
    exact (proj1 (proj2 CowOpIter_yields_every_record BuildConstants
                   CowReader_new fd self (fst (GetOpIter self)) (snd (GetOpIter self))
                   (one_op_file_parses 8 (or_intror eq_refl))
                   (surjective_pairing (GetOpIter self)))).
Defined.

(** C6 as stated fails: on a source that delivers 8 bytes per read, an
    in-range request for 16 bytes succeeds and reports 8. *)
Lemma GetRawBytes_reports_short_read :
  let fd := open_file (one_op_file (zero_bytes 32) (zero_bytes 32) 8) in
  let r := snd (Parse CowReader_new fd) in
  fst (Parse CowReader_new fd) = Success /\
  sizeof_CowHeader <= 96 < ops_offset (header_ r) /\
  96 + 16 <= ops_offset (header_ r) /\ 16 < fd_size_ r /\
  fst (GetRawBytes r 96 16) = inr (mkRawRead 8 (repeat xab 8)) /\
  fd_log (fd_ (snd (GetRawBytes r 96 16)))
    = SysRead 96 16 :: SysLseek 96 SEEK_SET :: fd_log (fd_ r).
Proof. vm_compute. repeat split; discriminate. Qed.

(** C6 as the code has it, at the same request: on the parsed reader, with
    the descriptor on a file that no longer seeks, and on one that no
    longer reads. *)
Lemma GetRawBytes_reads_once_witness :
  let f := one_op_file (zero_bytes 32) (zero_bytes 32) 8 in
  let fd := open_file f in
  let r := snd (Parse CowReader_new fd) in
  let with_fd fd' := mkCowReader fd' (header_ r) (fd_size_ r) in
  (exists r1,
     GetRawBytes r 96 16 =
       (inr (mkRawRead 8 (slice 96 8 (f_data (fd_file fd)))), r1) /\
     fd_log (fd_ r1) = SysRead 96 16 :: SysLseek 96 SEEK_SET :: fd_log (fd_ r) /\
     0 <= 8 <= 16) /\
  (fst (GetRawBytes (with_fd (open_file (mkFile (f_data f) false true 8))) 96 16)
     = inl LseekRawFailed /\
   error_kind LseekRawFailed = IoError /\
   fd_log (fd_ (snd (GetRawBytes
                       (with_fd (open_file (mkFile (f_data f) false true 8))) 96 16)))
     = [SysLseek 96 SEEK_SET]) /\
  (fst (GetRawBytes (with_fd (open_file (mkFile (f_data f) true false 8))) 96 16)
     = inl ReadFailed /\
   error_kind ReadFailed = IoError /\
   fd_log (fd_ (snd (GetRawBytes
                       (with_fd (open_file (mkFile (f_data f) true false 8))) 96 16)))
     = [SysRead 96 16; SysLseek 96 SEEK_SET]).
Proof.
  intros f fd r with_fd.
  assert (HP : Parse CowReader_new fd = (Success, r))
    by (vm_compute; reflexivity).
  assert (H1 : sizeof_CowHeader <= 96 < ops_offset (header_ r))
    by (vm_compute; split; [discriminate|reflexivity]).
  assert (H2 : 0 <= 16 < fd_size_ r)
    by (vm_compute; split; [discriminate|reflexivity]).
  assert (H3 : 96 + 16 <= ops_offset (header_ r)) by (vm_compute; discriminate).
  split; [|split].
  - exact (proj1 (proj2 (proj2 (proj2
             (GetRawBytes_reads_once CowReader_new fd r 96 16 fd HP H1 H2 H3))))).
  - exact (proj1 (GetRawBytes_reads_once CowReader_new fd r 96 16
                    (open_file (mkFile (f_data f) false true 8)) HP H1 H2 H3)
                 eq_refl).
  - exact (proj1 (proj2 (GetRawBytes_reads_once CowReader_new fd r 96 16
                           (open_file (mkFile (f_data f) true false 8)) HP H1 H2 H3))
                 eq_refl eq_refl).
Defined.

(** C8 against a passive first-stage daemon and an active second-stage
    daemon, against two daemons that both refuse, and against an active
    first-stage daemon. *)
Lemma ConnectToServer_fallback_chain_witness :
  (let s := scripted ["passive"; "active"] in
   let first := ConnectToServerSocket GetSocketNameFirstStage s in
   fst first = Ret false /\
   ConnectToServer s = ConnectToServerSocket GetSocketNameSecondStage (snd first) /\
   fst (ConnectToServer s) = Ret true) /\
  (let s := scripted ["fail"; "passive"] in
   let first := ConnectToServerSocket GetSocketNameFirstStage s in
   fst first = Ret false /\
   ConnectToServerSocket GetSocketNameSecondStage (snd first)
     = (Ret false, snd (ConnectToServer s))) /\
  (let s := scripted ["active"] in
   ConnectToServer s = ConnectToServerSocket GetSocketNameFirstStage s).
Proof.
  split; [|split].
  - intros s first.
    assert (Hfirst : fst first = Ret false) by (vm_compute; reflexivity).
    split; [exact Hfirst|]. split.
    + exact (proj1 (proj2 (ConnectToServer_fallback_chain s)) Hfirst).
    + vm_compute. reflexivity.
  - intros s first.
    assert (Hboth : ConnectToServer s = (Ret false, snd (ConnectToServer s)))
      by (vm_compute; reflexivity).
    exact (proj1 (proj2 (proj2 (ConnectToServer_fallback_chain s))) _ Hboth).
  - intros s.
    apply (proj1 (ConnectToServer_fallback_chain s)).
    vm_compute. reflexivity.
Defined.

(** C9 at one full triple. *)
Lemma RestartSnapuserd_needs_triples_witness :
  (0 < MAX_CONNECT_RETRY_COUNT)%nat /\
  ((forall (W : Type) (env : SocketEnv W) (s : Client W),
      fst (RestartSnapuserd [["cow"; "base"; "ctrl"]] s) <> OutOfRange)
   <-> Forall (fun v => (3 <= List.length v)%nat) [["cow"; "base"; "ctrl"]]).
Proof.
  assert (Hmax : (0 < MAX_CONNECT_RETRY_COUNT)%nat) by (cbn; lia).
  split; [exact Hmax|].
  exact (RestartSnapuserd_needs_triples [["cow"; "base"; "ctrl"]] Hmax).
Defined.

(** C10 at the reply "active success fail". *)
Lemma fail_is_tested_first_witness :
  let reply := "active success fail" in
  found (find reply "fail") = true /\
  found (find reply "active") = true /\
  found (find reply "success") = true /\
  fst (ConnectToServerSocket "snapuserd" (scripted [reply])) = Ret false /\
  fst (InitializeSnapuserd "cow" "base" "ctrl" (scripted ["active"; reply]))
    = Ret (-1) /\
  fst (RestartSnapuserd [] (scripted ["active"; reply])) = Ret (-1) /\
  fst (ConnectToServer (scripted [reply; "passive fail"])) = Ret false.
Proof.
  intros reply.
  assert (Hfail : found (find reply "fail") = true) by reflexivity.
  destruct (fail_is_tested_first (cfg:=BuildClient) (W:=Mock) reply Hfail)
    as (Hconn & Hinit & Hrestart & _ & Hboth).
  split; [exact Hfail|]. split; [reflexivity|]. split; [reflexivity|].
  split; [|split; [|split]]; cycle 3.
  { erewrite Hboth; [reflexivity|vm_compute; reflexivity|lia
                    |vm_compute; reflexivity|vm_compute; reflexivity
                    |vm_compute; reflexivity|lia
                    |vm_compute; reflexivity|vm_compute; reflexivity
                    |reflexivity]. }
  - erewrite Hconn; [reflexivity|vm_compute; reflexivity|lia
                    |vm_compute; reflexivity|vm_compute; reflexivity].
  - erewrite Hinit; [reflexivity|vm_compute; reflexivity
                    |vm_compute; reflexivity|vm_compute; reflexivity].
  - erewrite Hrestart; [reflexivity|vm_compute; reflexivity
                       |vm_compute; reflexivity|vm_compute; reflexivity].
Defined.

(* ===================================================================== *)
(** * Part XIV: more on Parse                                             *)
(* ===================================================================== *)

Lemma ReadFully_loop_file (fuel : nat) :
  forall (fd fd' : Fd) (rem : Z) (acc bs : list byte) (ok : bool),
    ReadFully_loop fuel fd rem acc = (ok, bs, fd') ->
    fd_file fd' = fd_file fd.
Proof.
  induction fuel as [|k IH]; intros fd fd' rem acc bs ok H; simpl in H;
    destruct (rem <=? 0); try (injection H as <- <- <-; reflexivity).
  destruct (sys_read fd rem) as [[n rd] fd1] eqn:Hread.
  apply sys_read_inv in Hread as (Hfile & _).
  destruct (n <=? 0).
  - injection H as <- <- <-. exact Hfile.
  - apply IH in H. congruence.
Qed.

Lemma zero_bytes_memcmp (hc : list byte) :
  List.length hc = 32%nat ->
  memcmp_ne (zero_bytes 32) hc 32 = false <-> hc = zero_bytes 32.
Proof.
  intros Hlen. unfold memcmp_ne. rewrite negb_false_iff, bytes_eqb_eq.
  assert (Hs : slice 0 32 hc = hc).
  { unfold slice. change (Z.to_nat 0) with 0%nat. rewrite skipn_0.
    apply firstn_all2. rewrite Hlen. reflexivity. }
  rewrite Hs. change (slice 0 32 (zero_bytes 32)) with (zero_bytes 32).
  split; congruence.
Qed.

Lemma file_header_checksum_lengths (f : File) :
  sizeof_CowHeader <= file_size f ->
  List.length (header_checksum (file_header f)) = 32%nat /\
  List.length (ops_checksum (file_header f)) = 32%nat.
Proof.
  intros Hlen. unfold file_header, decode_header, sizeof_CowHeader in *.
  cbn [header_checksum ops_checksum]. unfold file_size in Hlen.
  unfold slice. rewrite !length_firstn, !length_skipn, !length_firstn, !length_skipn.
  split; lia.
Qed.

Section ParseMore.
Context {consts : CowConstants}.

(** X1.  On a healthy file that holds a whole header, [Parse] succeeds
    exactly when the operation table lies inside the file, the magic, the
    header size and both version numbers are the compiled-in ones, and the
    stored header checksum is 32 zero bytes. *)
Theorem Parse_succeeds_iff (self : CowReader) (fd : Fd) :
  healthy (fd_file fd) -> sizeof_CowHeader <= file_size (fd_file fd) ->
  let h := file_header (fd_file fd) in
  fst (Parse self fd) = Success <->
  ops_offset h < file_size (fd_file fd) /\
  ops_offset h + ops_size h <= file_size (fd_file fd) /\
  magic h = kCowMagicNumber /\
  header_size h = sizeof_CowHeader /\
  major_version h = kCowVersionMajor /\
  minor_version h = kCowVersionMinor /\
  header_checksum h = zero_bytes 32.
Proof.
  intros Hh Hlen h. split.
  - intros HS.
    destruct (Parse self fd) as [st r] eqn:HP. cbn [fst] in HS. subst st.
    pose proof (Parse_accepts_only_zero_checksum _ _ _ HP) as Hz.
    apply Parse_success_inv in HP
      as (_ & _ & _ & Hhd & Hfs & Hoff & Hops & Hm & Hhs & Hmaj & Hmin & _).
    fold h in Hhd. rewrite Hhd, Hfs in *. repeat split; auto; lia.
  - intros (Hoff & Hsum & Hm & Hhs & Hmaj & Hmin & Hz).
    destruct (Parse_reads_header self fd Hh Hlen) as (fd3 & E1 & E2 & E3).
    destruct Hh as (_ & _ & _ & Hsz).
    assert (Hnn : 0 <= ops_offset h) by apply le_decode_nonneg.
    unfold Parse. rewrite E1.
    destruct (file_size (fd_file fd) <? 0) eqn:T0;
      [apply Z.ltb_lt in T0; unfold file_size in T0; lia|].
    rewrite E2. cbn [Z.ltb Z.compare]. rewrite E3. cbn [negb].
    fold (file_header (fd_file fd)). fold h.
    destruct (file_size (fd_file fd) <=? ops_offset h) eqn:T1;
      [apply Z.leb_le in T1; lia|].
    assert (Hw : wrap64 (file_size (fd_file fd) - ops_offset h)
                 = file_size (fd_file fd) - ops_offset h).
    { unfold wrap64. apply Z.mod_small. unfold two63, two64 in *. lia. }
    rewrite Hw.
    destruct (_ <? ops_size h) eqn:T2; [apply Z.ltb_lt in T2; lia|].
    rewrite Hm, Hhs, Hmaj, Hmin, !Z.eqb_refl. cbn [negb orb].
    unfold SHA256. rewrite Hz. reflexivity.
Qed.

Lemma Parse_seeks_succeed (fd : Fd) :
  f_seekable (fd_file fd) = true -> file_size (fd_file fd) < two63 ->
  sys_lseek fd 0 SEEK_END =
    (file_size (fd_file fd),
     mkFd (fd_file fd) (file_size (fd_file fd))
          (SysLseek 0 SEEK_END :: fd_log fd)) /\
  sys_lseek (mkFd (fd_file fd) (file_size (fd_file fd))
                  (SysLseek 0 SEEK_END :: fd_log fd)) 0 SEEK_SET =
    (0, mkFd (fd_file fd) 0 (parse_seeks ++ fd_log fd)).
Proof.
  intros Hs Hsz.
  assert (Hnn : 0 <= file_size (fd_file fd)) by (unfold file_size; lia).
  split.
  - unfold sys_lseek. rewrite Hs. simpl.
    replace (file_size (fd_file fd) + 0) with (file_size (fd_file fd)) by lia.
    destruct (file_size (fd_file fd) <? 0) eqn:H1; [apply Z.ltb_lt in H1; lia|].
    destruct (two63 <=? file_size (fd_file fd)) eqn:H2;
      [apply Z.leb_le in H2; lia|]. reflexivity.
  - unfold sys_lseek. simpl. rewrite Hs. reflexivity.
Qed.

(** X2.  A seekable file shorter than [sizeof(CowHeader)] (an empty one
    included) fails at the header read, with the file size already
    recorded in [fd_size_]. *)
Theorem Parse_short_file (self : CowReader) (fd : Fd) :
  f_seekable (fd_file fd) = true ->
  file_size (fd_file fd) < sizeof_CowHeader ->
  fst (Parse self fd) = Failure ReadHeaderFailed /\
  error_kind ReadHeaderFailed = IoError /\
  fd_size_ (snd (Parse self fd)) = file_size (fd_file fd).
Proof.
  intros Hs Hshort.
  assert (Hnn : 0 <= file_size (fd_file fd)) by (unfold file_size; lia).
  destruct (Parse_seeks_succeed fd Hs) as (E1 & E2);
    [unfold two63, sizeof_CowHeader in *; lia|].
  unfold Parse. rewrite E1.
  destruct (file_size (fd_file fd) <? 0) eqn:T0; [apply Z.ltb_lt in T0; lia|].
  rewrite E2. cbn [Z.ltb Z.compare].
  match goal with |- context [ReadFully ?x ?n] =>
    destruct (ReadFully x n) as [[ok bs] fd3] eqn:H3 end.
  destruct ok.
  - exfalso. unfold ReadFully in H3. apply ReadFully_loop_true in H3;
      [|cbn [fd_pos]; lia].
    destruct H3 as (_ & _ & _ & Hfit).
    destruct Hfit as (_ & _ & Hfit); [reflexivity|].
    cbn [fd_file fd_pos] in Hfit. lia.
  - cbn [negb fst snd fd_size_ header_]. repeat split.
Qed.

(** X3.  Whatever the file, [Parse] touches the descriptor only by seeking
    to the end and back to the start and then reading inside the header:
    no read reaches the payload or the operation table, nothing is read
    when a seek fails, and the descriptor stays on the same file. *)
Theorem Parse_reads_only_the_header (self : CowReader) (fd : Fd) :
  exists reads seeks,
    fd_log (fd_ (snd (Parse self fd))) = reads ++ seeks ++ fd_log fd /\
    Forall (read_within 0 sizeof_CowHeader) reads /\
    (seeks = [SysLseek 0 SEEK_END] \/ seeks = parse_seeks) /\
    (seek_failed (fst (Parse self fd)) = true -> reads = []) /\
    fd_file (fd_ (snd (Parse self fd))) = fd_file fd.
Proof.
  unfold Parse.
  destruct (sys_lseek fd 0 SEEK_END) as [pos fd1] eqn:H1.
  apply sys_lseek_inv in H1 as (Hf1 & Hl1 & Hc1).
  destruct (pos <? 0) eqn:T0.
  { exists [], [SysLseek 0 SEEK_END]. cbn [snd fst fd_ app].
    repeat split; auto. }
  destruct (sys_lseek fd1 0 SEEK_SET) as [r0 fd2] eqn:H2.
  apply sys_lseek_inv in H2 as (Hf2 & Hl2 & Hc2).
  destruct (r0 <? 0) eqn:T1.
  { exists [], parse_seeks. cbn [snd fst fd_ app]. unfold parse_seeks.
    rewrite Hl2, Hl1. repeat split; auto; congruence. }
  apply Z.ltb_ge in T1.
  assert (Hp2 : fd_pos fd2 = 0) by (destruct Hc2 as [->|(_ & _ & ? & ?)]; lia).
  destruct (ReadFully fd2 sizeof_CowHeader) as [[ok bs] fd3] eqn:H3.
  unfold ReadFully in H3.
  pose proof (ReadFully_loop_log _ _ _ _ _ _ _ H3) as (reads & Hl3 & Hall).
  pose proof (ReadFully_loop_file _ _ _ _ _ _ _ H3) as Hf3.
  rewrite Hp2 in Hall. cbn [Z.add] in Hall.
  assert (Hlog : fd_log fd3 = reads ++ parse_seeks ++ fd_log fd).
  { rewrite Hl3, Hl2, Hl1. reflexivity. }
  assert (Hfile : fd_file fd3 = fd_file fd) by congruence.
  exists reads, parse_seeks.
  destruct ok; cbn [negb];
    repeat match goal with
           | |- context [if ?c then _ else _] => destruct c
           end; cbn [snd fst fd_ seek_failed];
    repeat split; auto; discriminate.
Qed.

(** A successful [Parse] leaves the reader in the state [parsed_on]. *)
Lemma Parse_establishes (self : CowReader) (fd : Fd) (r : CowReader) :
  Parse self fd = (Success, r) -> parsed_on (fd_file fd) r.
Proof.
  intros HP. apply Parse_success_inv in HP
    as (Hh & Hlen & Hfile & Hhd & Hfs & Hoff & Hops & _).
  unfold parsed_on. repeat split; auto; try lia; apply Hh.
Qed.

End ParseMore.

(* ===================================================================== *)
(** * Part XV: the reader after Parse                                     *)
(* ===================================================================== *)

Lemma parsed_on_bounds (f : File) (r : CowReader) :
  parsed_on f r ->
  0 <= ops_offset (header_ r) /\ 0 <= ops_size (header_ r) /\
  file_size f < two63 /\ 0 < f_chunk f /\
  f_readable f = true /\ f_seekable f = true.
Proof.
  intros ((Hs & Hr & Hc & Hsz) & _ & _ & Hh & _).
  rewrite Hh. repeat split; auto; apply le_decode_nonneg.
Qed.

Lemma lseek_set_succeeds (fd : Fd) (off : Z) :
  f_seekable (fd_file fd) = true -> 0 <= off < two63 ->
  sys_lseek fd (to_off_t off) SEEK_SET =
    (off, mkFd (fd_file fd) off (SysLseek off SEEK_SET :: fd_log fd)).
Proof.
  intros Hs Hoff. unfold to_off_t.
  destruct (off <? two63) eqn:T; [|apply Z.ltb_ge in T; lia].
  unfold sys_lseek. rewrite Hs. cbn [negb].
  destruct (off <? 0) eqn:T1; [apply Z.ltb_lt in T1; lia|].
  destruct (two63 <=? off) eqn:T2; [apply Z.leb_le in T2; lia|].
  reflexivity.
Qed.

(** [GetRawBytes] on a parsed reader, in full. *)
Lemma GetRawBytes_parsed (f : File) (r : CowReader) (offset len : Z) :
  parsed_on f r -> 0 <= offset < two64 -> 0 <= len < two64 ->
  (in_payload r offset len /\
   let n := Z.min len (f_chunk f) in
   GetRawBytes r offset len =
     (inr (mkRawRead n (slice offset n (f_data f))),
      mkCowReader (mkFd f (offset + n)
                        (SysRead offset len :: SysLseek offset SEEK_SET
                           :: fd_log (fd_ r)))
                  (header_ r) (fd_size_ r)))
  \/
  (~ in_payload r offset len /\
   GetRawBytes r offset len = (inl InvalidDataOffset, r)).
Proof.
  intros Hp Hoff Hlen.
  pose proof (parsed_on_bounds f r Hp) as (Hoo & Hos & Hsz & Hch & Hrd & Hsk).
  destruct Hp as (_ & Hhl & Hfile & Hh & Hfs & Hlt & Hfit).
  unfold in_payload, GetRawBytes.
  destruct (offset <? sizeof_CowHeader) eqn:T1;
    [apply Z.ltb_lt in T1; right; split; [lia|reflexivity]|].
  destruct (ops_offset (header_ r) <=? offset) eqn:T2;
    [apply Z.leb_le in T2; right; split; [lia|reflexivity]|].
  apply Z.ltb_ge in T1. apply Z.leb_gt in T2.
  destruct (fd_size_ r <=? len) eqn:T3;
    [apply Z.leb_le in T3; right; split; [lia|reflexivity]|].
  apply Z.leb_gt in T3.
  assert (Hw : wrap64 (offset + len) = offset + len).
  { unfold wrap64. apply Z.mod_small. unfold two63, two64 in *. lia. }
  rewrite Hw.
  destruct (ops_offset (header_ r) <? offset + len) eqn:T4;
    [apply Z.ltb_lt in T4; right; split; [lia|reflexivity]|].
  apply Z.ltb_ge in T4. left. split; [lia|]. cbn [orb].
  rewrite lseek_set_succeeds by (rewrite ?Hfile; auto; lia).
  destruct (offset <? 0) eqn:T5; [apply Z.ltb_lt in T5; lia|].
  unfold sys_read. cbn [fd_file fd_pos fd_log]. rewrite Hfile, Hrd. cbn [negb].
  assert (Hn : Z.max 0 (Z.min len (Z.min (f_chunk f)
                 (Z.max 0 (file_size f - offset)))) = Z.min len (f_chunk f)) by lia.
  rewrite Hn.
  destruct (Z.min len (f_chunk f) <? 0) eqn:T6; [apply Z.ltb_lt in T6; lia|].
  reflexivity.
Qed.

Section AfterParse.
Context {consts : CowConstants}.

(** [GetOpIter], [GetRawBytes] and [CowDataStream::Read] keep [parsed_on],
    whatever they return. *)
Lemma parsed_on_kept (f : File) (r : CowReader) :
  parsed_on f r ->
  parsed_on f (snd (GetOpIter r)) /\
  (forall offset len, parsed_on f (snd (GetRawBytes r offset len))) /\
  (forall st length, parsed_on f (snd (CowDataStream_Read st r length))).
Proof.
  intros Hp.
  assert (Hkeep : forall fd', fd_file fd' = f ->
            parsed_on f (mkCowReader fd' (header_ r) (fd_size_ r))).
  { intros fd' Hf. destruct Hp as (H1 & H2 & _ & H4 & H5 & H6 & H7).
    unfold parsed_on. cbn [fd_ header_ fd_size_]. repeat split; auto; apply H1. }
  assert (Hfile : fd_file (fd_ r) = f) by apply Hp.
  assert (Hraw : forall offset len, parsed_on f (snd (GetRawBytes r offset len))).
  { intros offset len. unfold GetRawBytes.
    destruct (_ || _); [exact Hp|].
    destruct (sys_lseek _ _ _) as [r0 fd1] eqn:H1.
    apply sys_lseek_inv in H1 as (Hf1 & _).
    destruct (r0 <? 0); [apply Hkeep; congruence|].
    destruct (sys_read fd1 len) as [[rv bs] fd2] eqn:H2.
    apply sys_read_inv in H2 as (Hf2 & _).
    destruct (rv <? 0); apply Hkeep; congruence. }
  split; [|split; [exact Hraw|]].
  - unfold GetOpIter.
    destruct (sys_lseek _ _ _) as [r0 fd1] eqn:H1.
    apply sys_lseek_inv in H1 as (Hf1 & _).
    destruct (r0 <? 0); [apply Hkeep; congruence|].
    destruct (ReadFully fd1 _) as [[ok buf] fd2] eqn:H2.
    unfold ReadFully in H2. apply ReadFully_loop_file in H2.
    destruct ok; cbn [negb]; [destruct (memcmp_ne _ _ _)|];
      apply Hkeep; congruence.
  - intros st length. unfold CowDataStream_Read.
    destruct (_ =? 0); [exact Hp|].
    specialize (Hraw (offset_ st) (Z.min length (remaining_ st))).
    destruct (GetRawBytes r _ _) as [[e|rd] r']; exact Hraw.
Qed.

(** X4.  [Parse] establishes [parsed_on], and [GetOpIter], [GetRawBytes]
    and [CowDataStream::Read] keep it, whatever they return: the header and
    the size the reader holds are those of the file from [Parse] on. *)
Theorem parsed_on_is_kept (f : File) (r : CowReader) :
  (forall self fd, fd_file fd = f -> Parse self fd = (Success, r) -> parsed_on f r) /\
  (parsed_on f r ->
   parsed_on f (snd (GetOpIter r)) /\
   (forall offset len, parsed_on f (snd (GetRawBytes r offset len))) /\
   (forall st length, parsed_on f (snd (CowDataStream_Read st r length)))).
Proof.
  split.
  - intros self fd <- HP. exact (Parse_establishes _ _ _ HP).
  - exact (parsed_on_kept f r).
Qed.

End AfterParse.

(** [GetOpIter] in full, for a reader whose header is sane and whose
    descriptor is in any state. *)
Lemma GetOpIter_any_descriptor (r0 : CowReader) :
  0 <= ops_offset (header_ r0) < two63 -> 0 <= ops_size (header_ r0) ->
  let h := header_ r0 in
  let f := fd_file (fd_ r0) in
  let seeks := SysLseek (ops_offset h) SEEK_SET :: fd_log (fd_ r0) in
  let table_readable :=
    ops_size h = 0 \/
    (f_readable f = true /\ 0 < f_chunk f /\
     ops_offset h + ops_size h <= file_size f) in
  (f_seekable f = false /\
   GetOpIter r0 =
     (inl LseekOpsFailed, mkCowReader (mkFd f (fd_pos (fd_ r0)) seeks) h (fd_size_ r0)))
  \/
  (f_seekable f = true /\ ~ table_readable /\
   exists fd2, fd_file fd2 = f /\
     GetOpIter r0 = (inl ReadOpsFailed, mkCowReader fd2 h (fd_size_ r0)))
  \/
  (f_seekable f = true /\ table_readable /\
   exists fd2, fd_file fd2 = f /\
     GetOpIter r0 =
       (if memcmp_ne (zero_bytes 32) (ops_checksum h) 32
        then inl OpsChecksumMismatch
        else inr (CowOpIter_new (slice (ops_offset h) (ops_size h) (f_data f))
                                (ops_size h)),
        mkCowReader fd2 h (fd_size_ r0))).
Proof.
  intros Hoff Hsize h f seeks table_readable.
  unfold GetOpIter. fold h.
  assert (Ho : to_off_t (ops_offset h) = ops_offset h).
  { unfold to_off_t. destruct (ops_offset h <? two63) eqn:T; [reflexivity|].
    apply Z.ltb_ge in T. unfold h in *. lia. }
  rewrite Ho. unfold sys_lseek. fold f.
  destruct (f_seekable f) eqn:Hsk; cbn [negb];
    [|left; split; [reflexivity|reflexivity]].
  right.
  destruct ((ops_offset h <? 0) || (two63 <=? ops_offset h)) eqn:T5.
  { apply orb_true_iff in T5 as [T5|T5];
      [apply Z.ltb_lt in T5|apply Z.leb_le in T5]; unfold h in *; lia. }
  destruct (ops_offset h <? 0) eqn:T6; [apply Z.ltb_lt in T6; unfold h in *; lia|].
  destruct (ReadFully _ _) as [[ok buf] fd2] eqn:Hrf.
  unfold ReadFully in Hrf.
  pose proof (ReadFully_loop_file _ _ _ _ _ _ _ Hrf) as Hfile.
  cbn [fd_file] in Hfile.
  destruct ok; cbn [negb].
  - right. apply ReadFully_loop_true in Hrf; [|cbn [fd_pos]; unfold h in *; lia].
    cbn [fd_file fd_pos app] in Hrf. destruct Hrf as (Hbuf & _ & _ & Hmore).
    split; [reflexivity|]. split.
    + unfold table_readable. fold h in Hsize.
      destruct (Z.eq_dec (ops_size h) 0) as [Hz|Hnz]; [left; exact Hz|].
      right. apply Hmore. lia.
    + exists fd2. split; [exact Hfile|]. unfold SHA256. rewrite Hbuf.
      fold h in Hsize.
      replace (Z.max 0 (ops_size h)) with (ops_size h) by lia.
      destruct (memcmp_ne _ _ _); reflexivity.
  - left. split; [reflexivity|]. split.
    + intros [Hz | (Hrd & Hch & Hfit)].
      * rewrite Hz in Hrf. cbn in Hrf. discriminate.
      * assert (Hpos : 0 <= ops_offset h) by (unfold h; lia).
        destruct (ReadFully_loop_healthy (Z.to_nat (ops_size h))
                    (mkFd f (ops_offset h) seeks) (ops_size h) []
                    Hrd Hch Hpos Hfit (Nat.le_refl _)) as (fd3 & Heq).
        unfold seeks in Heq. cbn [fd_file fd_pos fd_log] in Hrf. fold f in Hrf. rewrite Heq in Hrf. discriminate.
    + exists fd2. split; [exact Hfile|reflexivity].
Qed.

Section OpIterAfterParse.
Context {consts : CowConstants}.

(** X5.  [GetOpIter] on the reader as [Parse] left it, with its descriptor
    in any state; the allocation of the buffer is taken to succeed.  A
    failed seek is reported as an I/O failure with nothing read.  After a
    seek that went through, a table that cannot be read whole (a failing
    read, a read that delivers nothing, or a file that has become shorter
    than the table's end) is reported as an I/O failure.  Otherwise the
    outcome is the iterator over the [ops_size] bytes of the file at
    [ops_offset] when the stored table checksum is 32 zero bytes, and the
    checksum mismatch when it is not.  While the descriptor is on the file
    [Parse] read, whose seeks and reads succeed, the call is in this last
    case, wherever the descriptor stands: so it is after an earlier
    [GetOpIter] and after any [GetRawBytes]. *)
Theorem GetOpIter_on_parsed
    (self : CowReader) (fd : Fd) (r : CowReader) (fd' : Fd) :
  Parse self fd = (Success, r) ->
  let h := header_ r in
  let r' := mkCowReader fd' h (fd_size_ r) in
  let f' := fd_file fd' in
  let table_readable :=
    ops_size h = 0 \/
    (f_readable f' = true /\ 0 < f_chunk f' /\
     ops_offset h + ops_size h <= file_size f') in
  (f_seekable f' = false ->
   fst (GetOpIter r') = inl LseekOpsFailed /\
   error_kind LseekOpsFailed = IoError /\
   fd_log (fd_ (snd (GetOpIter r'))) = SysLseek (ops_offset h) SEEK_SET :: fd_log fd') /\
  (f_seekable f' = true -> ~ table_readable ->
   fst (GetOpIter r') = inl ReadOpsFailed /\
   error_kind ReadOpsFailed = IoError) /\
  (f_seekable f' = true -> table_readable ->
   (ops_checksum h = zero_bytes 32 ->
    fst (GetOpIter r') =
      inr (CowOpIter_new (slice (ops_offset h) (ops_size h) (f_data f')) (ops_size h))) /\
   (ops_checksum h <> zero_bytes 32 ->
    fst (GetOpIter r') = inl OpsChecksumMismatch)) /\
  (fd_file fd' = fd_file fd ->
   f_seekable f' = true /\ table_readable /\
   fst (GetOpIter (snd (GetOpIter r'))) = fst (GetOpIter r') /\
   (forall offset len,
      fst (GetOpIter (snd (GetRawBytes r' offset len))) = fst (GetOpIter r'))) /\
  r = mkCowReader (fd_ r) h (fd_size_ r) /\ fd_file (fd_ r) = fd_file fd.
Proof.
  intros HP h r' f' table_readable.
  pose proof (Parse_establishes _ _ _ HP) as Hpo.
  apply Parse_success_inv in HP
    as ((Hsk & Hrd & Hch & Hsz) & Hhl & Hfile & Hhd & Hfs & Hops & Hsize & _).
  fold h in Hops, Hsize, Hhd.
  assert (Hlen : List.length (ops_checksum h) = 32%nat).
  { rewrite Hhd. apply file_header_checksum_lengths. exact Hhl. }
  pose proof (zero_bytes_memcmp _ Hlen) as Hz.
  assert (Hany : forall fd0,
    let f0 := fd_file fd0 in
    let tr := ops_size h = 0 \/
              (f_readable f0 = true /\ 0 < f_chunk f0 /\
               ops_offset h + ops_size h <= file_size f0) in
    (f_seekable f0 = false /\
     GetOpIter (mkCowReader fd0 h (fd_size_ r)) =
       (inl LseekOpsFailed,
        mkCowReader (mkFd f0 (fd_pos fd0)
                       (SysLseek (ops_offset h) SEEK_SET :: fd_log fd0)) h (fd_size_ r)))
    \/
    (f_seekable f0 = true /\ ~ tr /\
     exists fd2, fd_file fd2 = f0 /\
       GetOpIter (mkCowReader fd0 h (fd_size_ r)) =
         (inl ReadOpsFailed, mkCowReader fd2 h (fd_size_ r)))
    \/
    (f_seekable f0 = true /\ tr /\
     exists fd2, fd_file fd2 = f0 /\
       GetOpIter (mkCowReader fd0 h (fd_size_ r)) =
         (if memcmp_ne (zero_bytes 32) (ops_checksum h) 32
          then inl OpsChecksumMismatch
          else inr (CowOpIter_new (slice (ops_offset h) (ops_size h) (f_data f0))
                                  (ops_size h)),
          mkCowReader fd2 h (fd_size_ r)))).
  { intros fd0.
    exact (GetOpIter_any_descriptor (mkCowReader fd0 h (fd_size_ r))
             ltac:(cbn [header_]; lia) ltac:(cbn [header_]; lia)). }
  cbn zeta in Hany.
  assert (Hgood : forall fd0, fd_file fd0 = fd_file fd ->
    fst (GetOpIter (mkCowReader fd0 h (fd_size_ r))) =
      if memcmp_ne (zero_bytes 32) (ops_checksum h) 32
      then inl OpsChecksumMismatch
      else inr (CowOpIter_new (slice (ops_offset h) (ops_size h) (f_data (fd_file fd)))
                              (ops_size h))).
  { intros fd0 Hf0.
    destruct (Hany fd0) as [(Hs' & _) | [(_ & Hno & _) | (_ & _ & fd2 & _ & ->)]].
    - rewrite Hf0 in Hs'. congruence.
    - exfalso. apply Hno. right. rewrite Hf0. repeat split; auto. lia.
    - rewrite Hf0. reflexivity. }
  split; [|split; [|split; [|split]]].
  - intros Hs. unfold r'.
    destruct (Hany fd') as [(_ & ->) | [(Hs' & _) | (Hs' & _)]];
      [|unfold f' in *; congruence|unfold f' in *; congruence].
    repeat split.
  - intros Hs Hno. unfold r'.
    destruct (Hany fd') as [(Hs' & _) | [(_ & _ & fd2 & _ & ->) | (_ & Hyes & _)]];
      [unfold f' in *; congruence| |contradiction].
    repeat split.
  - intros Hs Hyes. unfold r'.
    destruct (Hany fd') as [(Hs' & _) | [(_ & Hno & _) | (_ & _ & fd2 & _ & ->)]];
      [unfold f' in *; congruence|contradiction|].
    cbn [fst]. fold f'. split.
    + intros Hzero. apply Hz in Hzero. rewrite Hzero. reflexivity.
    + intros Hnz. destruct (memcmp_ne _ _ _) eqn:Hm; [reflexivity|].
      exfalso. apply Hnz, Hz. reflexivity.
  - intros Hf'. split; [unfold f'; rewrite Hf'; exact Hsk|].
    split; [right; unfold f'; rewrite Hf'; repeat split; auto; lia|].
    assert (Hkeep : parsed_on (fd_file fd) r').
    { destruct Hpo as (H1 & H2 & _ & H4 & H5 & H6 & H7).
      unfold parsed_on, r'. cbn [fd_ header_ fd_size_]. repeat split; auto; apply H1. }
    pose proof (parsed_on_kept _ _ Hkeep) as (Hk1 & Hk2 & _).
    assert (Hshape : forall r1, parsed_on (fd_file fd) r1 ->
              fst (GetOpIter r1) = fst (GetOpIter r')).
    { intros [fd1 h1 s1] (_ & _ & Hf1 & Hh1 & Hs1 & _).
      cbn [fd_ header_ fd_size_] in *.
      assert (E1 : h1 = h) by congruence.
      assert (E2 : s1 = fd_size_ r) by congruence.
      rewrite E1, E2. unfold r'. rewrite (Hgood fd1 Hf1), (Hgood fd' Hf'). reflexivity. }
    split; [exact (Hshape _ Hk1)|]. intros offset len. exact (Hshape _ (Hk2 offset len)).
  - split; [destruct r; reflexivity|exact Hfile].
Qed.

End OpIterAfterParse.

Section PayloadAfterParse.
Context {consts : CowConstants}.

(** [GetRawBytes] on the reader as [Parse] left it, with its descriptor in
    any state. *)
Lemma GetRawBytes_after_parse
    (self : CowReader) (fd : Fd) (r : CowReader) (offset len : Z) (fd' : Fd) :
  Parse self fd = (Success, r) -> 0 <= offset < two64 -> 0 <= len < two64 ->
  let r' := mkCowReader fd' (header_ r) (fd_size_ r) in
  let f' := fd_file fd' in
  let seeks := SysLseek offset SEEK_SET :: fd_log fd' in
  let reads := SysRead offset len :: seeks in
  (~ in_payload r offset len /\
   GetRawBytes r' offset len = (inl InvalidDataOffset, r'))
  \/
  (in_payload r offset len /\ f_seekable f' = false /\
   GetRawBytes r' offset len =
     (inl LseekRawFailed,
      mkCowReader (mkFd f' (fd_pos fd') seeks) (header_ r) (fd_size_ r)))
  \/
  (in_payload r offset len /\ f_seekable f' = true /\ f_readable f' = false /\
   GetRawBytes r' offset len =
     (inl ReadFailed, mkCowReader (mkFd f' offset reads) (header_ r) (fd_size_ r)))
  \/
  (in_payload r offset len /\ f_seekable f' = true /\ f_readable f' = true /\
   let n := Z.max 0 (Z.min len (Z.min (f_chunk f') (Z.max 0 (file_size f' - offset)))) in
   GetRawBytes r' offset len =
     (inr (mkRawRead n (slice offset n (f_data f'))),
      mkCowReader (mkFd f' (offset + n) reads) (header_ r) (fd_size_ r))).
Proof.
  intros HP Hoff Hlen r' f' seeks reads.
  apply Parse_success_inv in HP
    as ((_ & _ & _ & Hsz) & _ & _ & _ & Hfs & Hops & _).
  exact (GetRawBytes_any_descriptor r' offset len
           ltac:(cbn [r' header_ fd_size_]; lia)
           ltac:(cbn [r' fd_size_]; lia) Hoff Hlen).
Qed.

(** X6.  [GetRawBytes offset len] on the reader as [Parse] left it, with
    its descriptor in any state.  It succeeds exactly when the request
    starts in the payload region, ends no later than the operation table,
    and the seek and the read both go through; a request outside the
    region is refused with the reader as it was.  What a success hands
    back is a run of the file's bytes at [offset], as long as the count it
    reports, at most [len] and inside the payload region; the count is 0
    only when [len] is 0, the read makes no progress, or the file ends at
    or before [offset].  While the descriptor is on the file [Parse] read,
    whose seeks and reads succeed, it succeeds exactly when the request is
    in range, and the count is [min len chunk], not 0 unless [len] is. *)
Theorem GetRawBytes_serves_the_payload
    (self : CowReader) (fd : Fd) (r : CowReader) (offset len : Z) (fd' : Fd) :
  Parse self fd = (Success, r) -> 0 <= offset < two64 -> 0 <= len < two64 ->
  let r' := mkCowReader fd' (header_ r) (fd_size_ r) in
  let f' := fd_file fd' in
  ((exists rd, fst (GetRawBytes r' offset len) = inr rd) <->
   in_payload r offset len /\ f_seekable f' = true /\ f_readable f' = true) /\
  (~ in_payload r offset len ->
   GetRawBytes r' offset len = (inl InvalidDataOffset, r')) /\
  (forall rd, fst (GetRawBytes r' offset len) = inr rd ->
     raw_buffer rd = slice offset (raw_read rd) (f_data f') /\
     Z.of_nat (List.length (raw_buffer rd)) = raw_read rd /\
     0 <= raw_read rd <= len /\
     offset + raw_read rd <= ops_offset (header_ r) /\
     (raw_read rd = 0 <->
      len = 0 \/ f_chunk f' <= 0 \/ file_size f' <= offset)) /\
  (fd_file fd' = fd_file fd ->
   f_seekable f' = true /\ f_readable f' = true /\
   ((exists rd, fst (GetRawBytes r' offset len) = inr rd) <->
    in_payload r offset len) /\
   (forall rd, fst (GetRawBytes r' offset len) = inr rd ->
      raw_read rd = Z.min len (f_chunk f') /\
      (0 < len -> 0 < raw_read rd))) /\
  r = mkCowReader (fd_ r) (header_ r) (fd_size_ r) /\ fd_file (fd_ r) = fd_file fd.
Proof.
  intros HP Hoff Hlen r' f'.
  pose proof (GetRawBytes_after_parse self fd r offset len fd' HP Hoff Hlen) as Hcases.
  cbn zeta in Hcases. fold r' f' in Hcases.
  apply Parse_success_inv in HP
    as ((Hsk & Hrd & Hch & Hsz) & Hhl & Hfile & _ & Hfs & Hops & _).
  assert (Hiff : (exists rd, fst (GetRawBytes r' offset len) = inr rd) <->
                 in_payload r offset len /\ f_seekable f' = true /\
                 f_readable f' = true).
  { destruct Hcases as [(Hno & ->) | [(Hin & Hs & ->) | [(Hin & Hs & Hr & ->)
                                                        | (Hin & Hs & Hr & ->)]]];
      cbn [fst]; split;
      try (intros (rd & Hrd'); discriminate);
      try (intros (Hin' & Hs' & Hr'); try contradiction; congruence).
    - intros _. auto.
    - intros _. eexists. reflexivity. }
  assert (Hshape : forall rd, fst (GetRawBytes r' offset len) = inr rd ->
            in_payload r offset len /\
            raw_read rd = Z.max 0 (Z.min len (Z.min (f_chunk f')
                                    (Z.max 0 (file_size f' - offset)))) /\
            raw_buffer rd = slice offset (raw_read rd) (f_data f')).
  { intros rd Hrd'.
    destruct Hcases as [(Hno & Heq) | [(Hin & Hs & Heq) | [(Hin & Hs & Hr & Heq)
                                                          | (Hin & Hs & Hr & Heq)]]];
      rewrite Heq in Hrd'; cbn [fst] in Hrd'; try discriminate.
    injection Hrd' as <-. cbn [raw_read raw_buffer]. auto. }
  split; [exact Hiff|]. split; [|split; [|split]].
  - intros Hno.
    destruct Hcases as [(_ & Heq) | [(Hin & _) | [(Hin & _) | (Hin & _)]]];
      [exact Heq|contradiction|contradiction|contradiction].
  - intros rd Hrd'. destruct (Hshape rd Hrd') as ((Hlo & Hhi) & Hn & Hbuf).
    split; [exact Hbuf|]. split.
    + rewrite Hbuf. destruct (Z.eq_dec (raw_read rd) 0) as [H0|Hpos].
      * rewrite H0. reflexivity.
      * apply slice_length; unfold sizeof_CowHeader in *; try lia.
        fold (file_size f'). lia.
    + unfold sizeof_CowHeader in *. repeat split; lia.
  - intros Hf'. unfold f'. rewrite Hf'.
    split; [exact Hsk|]. split; [exact Hrd|]. split.
    + rewrite Hiff. unfold f'. rewrite Hf'. tauto.
    + intros rd Hrd'. destruct (Hshape rd Hrd') as ((Hlo & Hhi) & Hn & _).
      unfold f' in Hn. rewrite Hf' in Hn. unfold sizeof_CowHeader in *. lia.
  - split; [destruct r; reflexivity|exact Hfile].
Qed.

End PayloadAfterParse.

(* ===================================================================== *)
(** * Part XVI: the data stream                                           *)
(* ===================================================================== *)

(** One [Read] on a stream inside the payload region. *)
Lemma CowDataStream_Read_step (f : File) (r : CowReader) (st : CowDataStream)
    (length : Z) :
  parsed_on f r -> stream_in_payload r st -> 0 < length < two64 ->
  let n := Z.min (Z.min length (remaining_ st)) (f_chunk f) in
  exists r',
    CowDataStream_Read st r length =
      (inr (mkRawRead n (slice (offset_ st) n (f_data f))),
       mkCowDataStream (offset_ st + n) (data_length_ st) (remaining_ st - n),
       r') /\
    parsed_on f r' /\ header_ r' = header_ r /\
    (remaining_ st = 0 -> r' = r).
Proof.
  intros Hp (Hrem & Hlo & Hhi) Hlen n.
  pose proof (parsed_on_bounds f r Hp) as (Hoo & Hos & Hsz & Hch & Hrd & Hsk).
  assert (Hops : ops_offset (header_ r) < two63)
    by (destruct Hp as (_ & _ & _ & _ & Hfs & Hlt & _); lia).
  unfold CowDataStream_Read.
  destruct (Z.min length (remaining_ st) =? 0) eqn:T.
  - apply Z.eqb_eq in T. assert (H0 : remaining_ st = 0) by lia.
    assert (Hn : n = 0) by (unfold n; lia). rewrite Hn.
    exists r. destruct st as [o d m]. cbn [offset_ data_length_ remaining_] in *.
    subst m. rewrite Z.add_0_r, Z.sub_0_r.
    split; [reflexivity|]. split; [exact Hp|]. split; reflexivity.
  - apply Z.eqb_neq in T.
    destruct (GetRawBytes_parsed f r (offset_ st) (Z.min length (remaining_ st)) Hp)
      as [(Hin & Heq) | (Hout & _)];
      [unfold two63, two64, sizeof_CowHeader in *; lia
      |unfold two63, two64 in *; lia| |].
    + cbn zeta in Heq. rewrite Heq. cbn [raw_read]. fold n.
      assert (Hw1 : wrap64 (offset_ st + n) = offset_ st + n).
      { unfold wrap64. apply Z.mod_small.
        unfold n, two63, two64, sizeof_CowHeader in *. lia. }
      assert (Hw2 : wrap64 (remaining_ st - n) = remaining_ st - n).
      { unfold wrap64. apply Z.mod_small.
        unfold n, two63, two64, sizeof_CowHeader in *. lia. }
      rewrite Hw1, Hw2. eexists. split; [reflexivity|].
      split; [|split; [reflexivity|lia]].
      destruct Hp as (H1 & H2 & _ & H4 & H5 & H6 & H7).
      unfold parsed_on. cbn [fd_ header_ fd_size_ fd_file]. repeat split; auto; apply H1.
    + exfalso. apply Hout. unfold in_payload. lia.
Qed.

Section StreamAfterParse.
Context {consts : CowConstants}.

(** X7.  One [CowDataStream::Read] into a buffer of [length] bytes, on the
    reader as [Parse] left it with its descriptor in any state.  When the
    buffer is empty or nothing remains, it delivers nothing and issues no
    call on the descriptor, whatever is left in the stream.  When both are
    positive and the unread part lies in the payload region: a failed seek
    or read is passed on as an I/O failure with the stream as it was;
    otherwise it delivers the bytes of the file at the stream's offset
    that one read gave, at most [min(length, remaining)], moves the offset
    forward and the remaining count down by that many, and leaves the
    stream inside the region.  While the descriptor is on the file [Parse]
    read, whose seeks and reads succeed, that count is
    [min(length, remaining, chunk)] and is not 0: so with a buffer that is
    not empty a [Read] delivers nothing exactly when nothing remains.  A
    [Read] that asks for bytes outside the region is refused at the range
    check with the stream and the reader as they were. *)
Theorem CowDataStream_Read_accounts
    (self : CowReader) (fd : Fd) (r : CowReader)
    (st : CowDataStream) (length : Z) (fd' : Fd) :
  Parse self fd = (Success, r) -> 0 <= length < two64 ->
  let r' := mkCowReader fd' (header_ r) (fd_size_ r) in
  let f' := fd_file fd' in
  let to_read := Z.min length (remaining_ st) in
  (to_read = 0 ->
   CowDataStream_Read st r' length = (inr (mkRawRead 0 []), st, r')) /\
  (stream_in_payload r st -> 0 < to_read ->
   (f_seekable f' = false ->
    exists r1, CowDataStream_Read st r' length = (inl LseekRawFailed, st, r1) /\
               error_kind LseekRawFailed = IoError) /\
   (f_seekable f' = true -> f_readable f' = false ->
    exists r1, CowDataStream_Read st r' length = (inl ReadFailed, st, r1) /\
               error_kind ReadFailed = IoError) /\
   (f_seekable f' = true -> f_readable f' = true ->
    let n := Z.max 0 (Z.min to_read (Z.min (f_chunk f')
                                           (Z.max 0 (file_size f' - offset_ st)))) in
    let '(res, st', r1) := CowDataStream_Read st r' length in
    res = inr (mkRawRead n (slice (offset_ st) n (f_data f'))) /\
    offset_ st' = offset_ st + n /\ remaining_ st' = remaining_ st - n /\
    data_length_ st' = data_length_ st /\
    stream_in_payload r1 st' /\
    0 <= n <= to_read /\
    (fd_file fd' = fd_file fd -> n = Z.min to_read (f_chunk f') /\ 0 < n))) /\
  (0 < to_read -> 0 <= offset_ st < two64 -> remaining_ st < two64 ->
   ~ in_payload r (offset_ st) to_read ->
   CowDataStream_Read st r' length = (inl InvalidDataOffset, st, r')) /\
  r = mkCowReader (fd_ r) (header_ r) (fd_size_ r) /\ fd_file (fd_ r) = fd_file fd.
Proof.
  intros HP Hlen r' f' to_read.
  assert (Hraw : 0 < to_read -> 0 <= offset_ st < two64 -> remaining_ st < two64 -> _)
    by (intros Hpos Hoff Hrem;
        exact (GetRawBytes_after_parse self fd r (offset_ st) to_read fd' HP Hoff
                 ltac:(unfold to_read in *; lia))).
  cbn zeta in Hraw. fold r' f' in Hraw.
  apply Parse_success_inv in HP
    as ((Hsk & Hrd & Hch & Hsz) & Hhl & Hfile & _ & Hfs & Hops & _).
  split; [|split; [|split]].
  - intros H0. unfold CowDataStream_Read. fold to_read. rewrite H0. reflexivity.
  - intros (Hrem & Hlo & Hhi) Hpos.
    assert (Hoff : 0 <= offset_ st < two64)
      by (unfold two63, two64, sizeof_CowHeader in *; lia).
    assert (Hr64 : remaining_ st < two64) by (unfold two63, two64 in *; lia).
    assert (Hin : in_payload r (offset_ st) to_read)
      by (unfold in_payload, to_read in *; lia).
    specialize (Hraw Hpos Hoff Hr64).
    unfold CowDataStream_Read. fold to_read.
    destruct (to_read =? 0) eqn:T; [apply Z.eqb_eq in T; lia|].
    split; [|split].
    + intros Hs.
      destruct Hraw as [(Hno & _) | [(_ & _ & ->) | [(_ & Hs' & _) | (_ & Hs' & _)]]];
        [contradiction| |congruence|congruence].
      eexists. split; reflexivity.
    + intros Hs Hr.
      destruct Hraw as [(Hno & _) | [(_ & Hs' & _) | [(_ & _ & _ & ->) | (_ & _ & Hr' & _)]]];
        [contradiction|congruence| |congruence].
      eexists. split; reflexivity.
    + intros Hs Hr.
      set (n := Z.max 0 (Z.min to_read (Z.min (f_chunk f')
                                               (Z.max 0 (file_size f' - offset_ st))))) in *.
      destruct Hraw as [(Hno & _) | [(_ & Hs' & _) | [(_ & _ & Hr' & _) | (_ & _ & _ & ->)]]];
        [contradiction|congruence|congruence|].
      cbn [raw_read offset_ remaining_ data_length_].
      assert (Hn : 0 <= n <= to_read) by (unfold n; lia).
      unfold wrap64.
      rewrite !Z.mod_small
        by (unfold to_read, two63, two64, sizeof_CowHeader in *; lia).
      split; [reflexivity|]. split; [reflexivity|]. split; [reflexivity|].
      split; [reflexivity|]. split.
      * unfold stream_in_payload. cbn [offset_ remaining_ header_].
        unfold to_read in *. lia.
      * split; [exact Hn|]. intros Hf'. unfold n, f'. rewrite Hf'.
        unfold to_read, sizeof_CowHeader in *. lia.
  - intros Hpos Hoff Hr64 Hout. specialize (Hraw Hpos Hoff Hr64).
    unfold CowDataStream_Read. fold to_read.
    destruct (to_read =? 0) eqn:T; [apply Z.eqb_eq in T; lia|].
    destruct Hraw as [(_ & ->) | [(Hin & _) | [(Hin & _) | (Hin & _)]]];
      [reflexivity|contradiction|contradiction|contradiction].
  - split; [destruct r; reflexivity|exact Hfile].
Qed.

End StreamAfterParse.

Lemma read_to_end_delivers (f : File) (length : Z) (fuel : nat) :
  0 < length < two64 ->
  forall (st : CowDataStream) (r : CowReader) (acc : list byte),
    parsed_on f r -> stream_in_payload r st ->
    (Z.to_nat (remaining_ st) <= fuel)%nat ->
    exists st' r',
      read_to_end fuel length st r acc =
        (Some (acc ++ slice (offset_ st) (remaining_ st) (f_data f)), st', r') /\
      remaining_ st' = 0 /\ parsed_on f r'.
Proof.
  intros Hlen. induction fuel as [|k IH]; intros st r acc Hp Hst Hfuel;
    destruct (CowDataStream_Read_step f r st length Hp Hst Hlen)
      as (r' & Heq & Hp' & Hh' & _);
    pose proof (parsed_on_bounds f r Hp) as (_ & _ & _ & Hch & _);
    pose proof Hst as (Hrem & Hlo & Hhi);
    cbn [read_to_end]; rewrite Heq; cbn [raw_read raw_buffer];
    set (n := Z.min (Z.min length (remaining_ st)) (f_chunk f)) in *;
    destruct (n =? 0) eqn:T.
  - apply Z.eqb_eq in T. assert (H0 : remaining_ st = 0) by (unfold n in T; lia).
    do 2 eexists. rewrite H0, slice_zero, app_nil_r.
    split; [reflexivity|]. cbn [remaining_]. split; [lia|exact Hp'].
  - apply Z.eqb_neq in T. unfold n in T. lia.
  - apply Z.eqb_eq in T. assert (H0 : remaining_ st = 0) by (unfold n in T; lia).
    do 2 eexists. rewrite H0, slice_zero, app_nil_r.
    split; [reflexivity|]. cbn [remaining_]. split; [lia|exact Hp'].
  - apply Z.eqb_neq in T.
    assert (Hn : 0 < n <= remaining_ st) by (unfold n in *; lia).
    destruct (IH (mkCowDataStream (offset_ st + n) (data_length_ st)
                                  (remaining_ st - n)) r'
                 (acc ++ slice (offset_ st) n (f_data f)))
      as (st' & r'' & Hrec & Hdone & Hp''); auto.
    + unfold stream_in_payload. cbn [offset_ remaining_]. rewrite Hh'. lia.
    + cbn [remaining_]. lia.
    + exists st', r''. rewrite Hrec. cbn [offset_ remaining_].
      rewrite <- app_assoc, slice_app by (unfold sizeof_CowHeader in *; lia).
      replace (n + (remaining_ st - n)) with (remaining_ st) by lia.
      auto.
Qed.

(** X8.  Emptying a fresh stream over a payload that lies in the payload
    region delivers exactly the [data_length] bytes of the file at
    [source], whatever the buffer length and however short the reads of
    the source are, and leaves the stream exhausted. *)
Theorem read_to_end_yields_the_payload (f : File) (r : CowReader)
    (source data_length length : Z) :
  parsed_on f r -> 0 < length < two64 ->
  0 <= data_length -> sizeof_CowHeader <= source ->
  source + data_length <= ops_offset (header_ r) ->
  exists st' r',
    read_to_end (Z.to_nat data_length) length
                (CowDataStream_new source data_length) r [] =
      (Some (slice source data_length (f_data f)), st', r') /\
    remaining_ st' = 0 /\ parsed_on f r'.
Proof.
  intros Hp Hlen Hdl Hlo Hhi.
  destruct (read_to_end_delivers f length (Z.to_nat data_length) Hlen
              (CowDataStream_new source data_length) r [] Hp)
    as (st' & r' & Heq & Hdone & Hp'); cbn [CowDataStream_new remaining_ offset_].
  - unfold stream_in_payload, CowDataStream_new. cbn [offset_ remaining_]. lia.
  - lia.
  - exists st', r'. rewrite Heq. auto.
Qed.

(* ===================================================================== *)
(** * Part XVII: more on the operation iterator                           *)
(* ===================================================================== *)

(** Walking from the [k]-th record with [m] whole records and a partial
    one of [extra] bytes left. *)
Lemma drain_from_slack (ops : list byte) (extra : Z) (m : nat) :
  0 <= extra < sizeof_CowOperation ->
  forall (k : nat) (done : bool),
    let pos := Z.of_nat k * sizeof_CowOperation in
    let stop := pos + Z.of_nat m * sizeof_CowOperation + extra in
    stop < two64 ->
    done = (m =? 0)%nat ->
    drain (mkCowOpIter ops pos stop done) = Some (stored_records ops k m).
Proof.
  intros Hex. induction m as [|m IH]; intros k done pos stop Hlt Hdone; subst done;
    rewrite drain_step; unfold Done; cbn [done_ Nat.eqb].
  - reflexivity.
  - assert (Hhas : HasNext (mkCowOpIter ops pos stop false) = true).
    { unfold HasNext, wrap64. cbn [pos_ end_].
      rewrite Z.mod_small by (unfold stop, two64, sizeof_CowOperation in *; lia).
      apply andb_true_iff. split; [apply Z.ltb_lt|apply Z.leb_le];
        unfold stop, sizeof_CowOperation in *; lia. }
    unfold Get, Next, Done. cbn [done_]. rewrite Hhas. cbn [negb pos_ end_ ops_ done_].
    set (it' := mkCowOpIter ops (pos + sizeof_CowOperation) stop false).
    assert (Hpos' : pos + sizeof_CowOperation = Z.of_nat (S k) * sizeof_CowOperation)
      by (unfold pos; lia).
    assert (Hstop' : stop = Z.of_nat (S k) * sizeof_CowOperation
                            + Z.of_nat m * sizeof_CowOperation + extra)
      by (unfold stop, pos; lia).
    assert (Hnext : HasNext it' = negb (m =? 0)%nat).
    { unfold HasNext, it', wrap64. cbn [pos_ end_].
      rewrite Z.mod_small by (unfold stop, two64, sizeof_CowOperation in *; lia).
      destruct m as [|m']; cbn [Nat.eqb negb].
      - apply andb_false_iff. right. apply Z.leb_gt.
        unfold stop, sizeof_CowOperation in *. lia.
      - apply andb_true_iff.
        split; [apply Z.ltb_lt|apply Z.leb_le];
          unfold stop, sizeof_CowOperation in *; lia. }
    rewrite Hnext, negb_involutive.
    assert (Hrest : drain (if (m =? 0)%nat
                           then mkCowOpIter ops (pos + sizeof_CowOperation) stop true
                           else it')
                    = Some (stored_records ops (S k) m)).
    { replace (if (m =? 0)%nat
               then mkCowOpIter ops (pos + sizeof_CowOperation) stop true else it')
        with (mkCowOpIter ops (Z.of_nat (S k) * sizeof_CowOperation)
                (Z.of_nat (S k) * sizeof_CowOperation
                 + Z.of_nat m * sizeof_CowOperation + extra) (m =? 0)%nat).
      - apply IH; [rewrite <- Hstop'; exact Hlt|reflexivity].
      - rewrite <- Hstop', <- Hpos'. unfold it'.
        destruct (m =? 0)%nat; reflexivity. }
    rewrite Hrest. reflexivity.
Qed.

(** X9.  For any buffer length the walk yields the
    [len / sizeof(CowOperation)] whole records, rounded down, and no
    [CHECK] fires: trailing bytes that do not make up a record are passed
    over in silence, and a buffer shorter than one record gives an
    iterator that is done from the start. *)
Theorem CowOpIter_ignores_partial_record (ops : list byte) (len : Z) :
  0 <= len < two64 ->
  let n := Z.to_nat (len / sizeof_CowOperation) in
  drain (CowOpIter_new ops len) = Some (stored_records ops 0 n) /\
  List.length (stored_records ops 0 n) = n /\
  (Done (CowOpIter_new ops len) = true <-> len < sizeof_CowOperation).
Proof.
  intros Hlen n.
  pose proof (Z.div_mod len sizeof_CowOperation ltac:(discriminate)) as Hdm.
  pose proof (Z.mod_pos_bound len sizeof_CowOperation ltac:(reflexivity)) as Hmod.
  assert (Hq : 0 <= len / sizeof_CowOperation)
    by (apply Z.div_pos; [lia|reflexivity]).
  assert (Hdiv : len = Z.of_nat n * sizeof_CowOperation + len mod sizeof_CowOperation).
  { unfold n. rewrite Z2Nat.id by exact Hq. lia. }
  assert (Hdone : negb (HasNext (mkCowOpIter ops 0 (0 + len) false))
                  = (n =? 0)%nat).
  { unfold HasNext, wrap64. cbn [pos_ end_].
    replace (0 + len - 0) with len by lia.
    rewrite Z.mod_small by lia.
    destruct n as [|n']; cbn [Nat.eqb].
    - apply negb_true_iff, andb_false_iff. right. apply Z.leb_gt. lia.
    - apply negb_false_iff, andb_true_iff.
      split; [apply Z.ltb_lt|apply Z.leb_le]; unfold sizeof_CowOperation in *; lia. }
  split; [|split].
  - unfold CowOpIter_new. rewrite Hdone.
    pose proof (drain_from_slack ops (len mod sizeof_CowOperation) n Hmod
                  0 (n =? 0)%nat) as Hd.
    cbn zeta in Hd. change (Z.of_nat 0 * sizeof_CowOperation) with 0 in Hd.
    replace (0 + len) with (0 + Z.of_nat n * sizeof_CowOperation
                            + len mod sizeof_CowOperation) by lia.
    apply Hd; [lia|reflexivity].
  - unfold stored_records. rewrite length_map, length_seq. reflexivity.
  - unfold CowOpIter_new, Done. cbn [done_]. rewrite Hdone.
    rewrite Nat.eqb_eq. split; intros H.
    + rewrite H in Hdiv. lia.
    + destruct n as [|n']; [reflexivity|]. unfold sizeof_CowOperation in *. lia.
Qed.

(** X10.  The constructor sets [iter_ok] up and [Next] keeps it.  Under it
    an iterator that is not done always has a whole record under the
    cursor: neither [CHECK] of [Get] fires, the record lies inside the
    buffer range, and [Next] goes through; on a done iterator both [Get]
    and [Next] abort. *)
Theorem CowOpIter_checks_never_fire :
  (forall ops len, 0 <= len < two64 -> iter_ok (CowOpIter_new ops len)) /\
  (forall it it', iter_ok it -> Next it = Some it' ->
     iter_ok it' /\ pos_ it' = pos_ it + sizeof_CowOperation /\
     end_ it' = end_ it /\ ops_ it' = ops_ it) /\
  (forall it, iter_ok it -> Done it = false ->
     Get it = Some (decode_op (slice (pos_ it) sizeof_CowOperation (ops_ it))) /\
     pos_ it + sizeof_CowOperation <= end_ it /\
     exists it', Next it = Some it') /\
  (forall it, Done it = true -> Get it = None /\ Next it = None).
Proof.
  split; [|split; [|split]].
  - intros ops len Hlen. unfold iter_ok, CowOpIter_new. cbn [done_ pos_ end_].
    unfold HasNext. cbn [pos_ end_]. repeat split; lia.
  - intros it it' (Hd & Hp & He) HN. unfold Next, Done in HN.
    destruct (done_ it) eqn:Hdone; [discriminate|]. injection HN as <-.
    destruct (HasNext (mkCowOpIter (ops_ it) (pos_ it + sizeof_CowOperation)
                                   (end_ it) false)) eqn:Hn;
      cbn [negb pos_ end_ ops_ done_]; unfold iter_ok; cbn [pos_ end_ ops_ done_].
    + unfold HasNext in *. cbn [pos_ end_] in *. rewrite Hn.
      unfold sizeof_CowOperation. repeat split; lia.
    + unfold HasNext in *. cbn [pos_ end_] in *. rewrite Hn.
      unfold sizeof_CowOperation. repeat split; lia.
  - intros it (Hd & Hp & He) Hnd. unfold Done in Hnd. rewrite Hnd in Hd.
    symmetry in Hd. apply negb_false_iff in Hd.
    unfold Get, Next, Done. rewrite Hnd, Hd. cbn [negb].
    split; [reflexivity|]. split; [|eexists; reflexivity].
    unfold HasNext in Hd. apply andb_true_iff in Hd as (H1 & H2).
    apply Z.ltb_lt in H1. apply Z.leb_le in H2. unfold wrap64 in H2.
    rewrite Z.mod_small in H2 by (unfold two64 in *; lia). lia.
  - intros it Hd. unfold Get, Next. rewrite Hd. split; reflexivity.
Qed.

(* ===================================================================== *)
(** * Part XVIII: more on the client                                      *)
(* ===================================================================== *)

Section ClientMore.
Context {cfg : ClientConstants} {W : Type} {env : SocketEnv W}.

(** A connect that returned true holds an open descriptor and has read a
    reply with "active" and without "fail" or "passive". *)
Lemma ConnectToServer_true (s s1 : Client W) :
  ConnectToServer s = (Ret true, s1) ->
  0 <= sockfd_ s1 /\
  exists s2 reply,
    Receivemsg s2 = (Ret reply, s1) /\
    found (find reply "fail") = false /\
    found (find reply "passive") = false /\
    found (find reply "active") = true.
Proof.
  unfold ConnectToServer, bind.
  destruct (ConnectToServerSocket GetSocketNameFirstStage s)
    as [[[|] | | |] sa] eqn:H1; try discriminate.
  - cbn [ret]. intros H. injection H as <-.
    destruct (ConnectToServerSocket_true _ _ _ H1) as (s2 & str & ? & ? & ? & ? & ?).
    split; [assumption|]. exists s2, str. auto.
  - destruct (ConnectToServerSocket GetSocketNameSecondStage sa)
      as [[[|] | | |] sb] eqn:H2; try discriminate.
    cbn [ret]. intros H. injection H as <-.
    destruct (ConnectToServerSocket_true _ _ _ H2) as (s2 & str & ? & ? & ? & ? & ?).
    split; [assumption|]. exists s2, str. auto.
Qed.




(** X12.  [InitializeSnapuserd] returns 0 or -1 when it returns.  It
    returns 0 exactly when the connect succeeded, the whole
    ["start,<cow>,<backing>,<control>"] message went out and the reply
    holds no "fail"; the reply need not hold "success".  The connection is
    then closed. *)
Theorem InitializeSnapuserd_outcome (cow base control : string) (s : Client W) :
  let msg := ("start," ++ cow ++ "," ++ base ++ "," ++ control)%string in
  (forall r s', InitializeSnapuserd cow base control s = (Ret r, s') ->
     r = 0 \/ r = -1) /\
  (forall s',
     InitializeSnapuserd cow base control s = (Ret 0, s') <->
     exists s1 s2 s3 str,
       ConnectToServer s = (Ret true, s1) /\
       Sendmsg msg (msg_size msg) s1 = (Ret 0, s2) /\
       Receivemsg s2 = (Ret str, s3) /\
       found (find str "fail") = false /\
       s' = closed s3).
Proof.
  intros msg. unfold InitializeSnapuserd. fold msg.
  assert (Hcases : forall r s',
    (connected <- ConnectToServer ;;
     if negb connected then ret (-1)
     else
       r0 <- Sendmsg msg (msg_size msg) ;;
       if r0 <? 0 then ret (-1)
       else
         str <- Receivemsg ;;
         if found (find str "fail") then ret (-1)
         else DisconnectFromServer ;;; ret 0) s = (Ret r, s') ->
    r = -1 \/
    (r = 0 /\ exists s1 s2 s3 str,
       ConnectToServer s = (Ret true, s1) /\
       Sendmsg msg (msg_size msg) s1 = (Ret 0, s2) /\
       Receivemsg s2 = (Ret str, s3) /\
       found (find str "fail") = false /\
       s' = closed s3)).
  { intros r s' H. unfold bind at 1 in H.
    destruct (ConnectToServer s) as [[[|] | | |] s1] eqn:Hc; try discriminate;
      cbn [negb] in H; [|injection H as <- <-; left; reflexivity].
    unfold bind at 1 in H.
    destruct (Sendmsg_returns msg (msg_size msg) s1) as (r0 & Hs & [-> | ->]);
      rewrite Hs in H; cbn [Z.ltb Z.compare] in H;
      [|injection H as <- <-; left; reflexivity].
    unfold bind at 1 in H.
    destruct (Receivemsg_returns
                (mkClient (sockfd_ s1)
                   (snd (sys_send (sockfd_ s1) msg (msg_size msg) (world s1)))))
      as (str & s3 & Hr & _).
    rewrite Hr in H.
    destruct (found (find str "fail")) eqn:Hf;
      [injection H as <- <-; left; reflexivity|].
    unfold bind, DisconnectFromServer, ret in H. injection H as <- <-.
    right. split; [reflexivity|]. do 4 eexists. repeat split; eauto. }
  split.
  - intros r s' H. apply Hcases in H. destruct H as [->|(-> & _)]; auto.
  - intros s'. split.
    + intros H. apply Hcases in H. destruct H as [H|(_ & H)]; [discriminate|exact H].
    + intros (s1 & s2 & s3 & str & Hc & Hs & Hr & Hf & ->).
      unfold bind at 1. rewrite Hc. cbn [negb].
      unfold bind at 1. rewrite Hs. cbn [Z.ltb Z.compare].
      unfold bind at 1. rewrite Hr, Hf. reflexivity.
Qed.



(** X14.  [StopSnapuserd] returns 0 or -1 when it returns, and 0 only
    after the whole "stop" message went out, closing the connection
    afterwards.  For the first-stage daemon the message goes out on the
    socket as [socket_local_client] opened it, with no "query" exchange
    before; otherwise after a [ConnectToServer] that returned true. *)
Theorem StopSnapuserd_outcome (firstStageDaemon : bool) (s : Client W) :
  (forall r s', StopSnapuserd firstStageDaemon s = (Ret r, s') -> r = 0 \/ r = -1) /\
  (forall s', StopSnapuserd firstStageDaemon s = (Ret 0, s') ->
     exists s1 s2,
       Sendmsg "stop" (msg_size "stop") s1 = (Ret 0, s2) /\
       s' = closed s2 /\ 0 <= sockfd_ s1 /\
       if firstStageDaemon
       then s1 = mkClient (fst (socket_local_client GetSocketNameFirstStage (world s)))
                          (snd (socket_local_client GetSocketNameFirstStage (world s)))
       else ConnectToServer s = (Ret true, s1)).
Proof.
  assert (Hcases : forall r s', StopSnapuserd firstStageDaemon s = (Ret r, s') ->
    r = -1 \/
    (r = 0 /\ exists s1 s2,
       Sendmsg "stop" (msg_size "stop") s1 = (Ret 0, s2) /\
       s' = closed s2 /\ 0 <= sockfd_ s1 /\
       if firstStageDaemon
       then s1 = mkClient (fst (socket_local_client GetSocketNameFirstStage (world s)))
                          (snd (socket_local_client GetSocketNameFirstStage (world s)))
       else ConnectToServer s = (Ret true, s1))).
  { intros r s' H. unfold StopSnapuserd in H. unfold bind at 1 in H.
    assert (Hsend : forall s1,
      0 <= sockfd_ s1 ->
      (if firstStageDaemon
       then s1 = mkClient (fst (socket_local_client GetSocketNameFirstStage (world s)))
                          (snd (socket_local_client GetSocketNameFirstStage (world s)))
       else ConnectToServer s = (Ret true, s1)) ->
      (sendRet <- Sendmsg "stop" (msg_size "stop") ;;
       if sendRet <? 0 then ret (-1) else DisconnectFromServer ;;; ret 0) s1
        = (Ret r, s') ->
      r = -1 \/
      (r = 0 /\ exists s1 s2,
         Sendmsg "stop" (msg_size "stop") s1 = (Ret 0, s2) /\
         s' = closed s2 /\ 0 <= sockfd_ s1 /\
         if firstStageDaemon
         then s1 = mkClient (fst (socket_local_client GetSocketNameFirstStage (world s)))
                            (snd (socket_local_client GetSocketNameFirstStage (world s)))
         else ConnectToServer s = (Ret true, s1))).
    { intros s1 Hfd Hhow K. unfold bind at 1 in K.
      destruct (Sendmsg_returns "stop" (msg_size "stop") s1) as (r0 & Hs & [-> | ->]);
        rewrite Hs in K; cbn [Z.ltb Z.compare] in K.
      - unfold bind, DisconnectFromServer, ret in K. injection K as <- <-.
        right. split; [reflexivity|]. do 2 eexists. repeat split; eauto.
      - injection K as <- <-. left. reflexivity. }
    destruct firstStageDaemon.
    - destruct (socket_local_client GetSocketNameFirstStage (world s)) as [fd w].
      cbn [fst snd] in *.
      destruct (fd <? 0) eqn:T; cbn [negb] in H.
      + injection H as <- <-. left. reflexivity.
      + apply Z.ltb_ge in T. eapply Hsend; [|reflexivity|exact H]. exact T.
    - destruct (ConnectToServer s) as [[[|] | | |] s1] eqn:Hc; try discriminate;
        cbn [negb] in H; [|injection H as <- <-; left; reflexivity].
      eapply Hsend; [|reflexivity|exact H].
      apply (ConnectToServer_true _ _ Hc). }
  split.
  - intros r s' H. apply Hcases in H. destruct H as [->|(-> & _)]; auto.
  - intros s' H. apply Hcases in H. destruct H as [H|(_ & H)]; [discriminate|exact H].
Qed.

End ClientMore.

(** X15.  With no daemon listening, [StartSnapuserdaemon] forks once, polls
    [MAX_CONNECT_RETRY_COUNT] times with a sleep after each failed poll,
    sends nothing, consumes no reply, and returns -1. *)
Theorem StartSnapuserdaemon_gives_up (cfg : ClientConstants) (socketname : string)
    (fd : Z) (replies : list string) (log : list MockEvent) :
  let run := StartSnapuserdaemon socketname (mkClient fd (nobody_listening replies log)) in
  fst run = Ret (-1) /\
  world (snd run) =
    nobody_listening replies (repeat MSleep MAX_CONNECT_RETRY_COUNT ++ MFork :: log).
Proof.
  assert (Hloop : forall n fd0 log0, exists fd',
    connect_retry_loop n (mkClient fd0 (nobody_listening replies log0)) =
      (Ret (-1), mkClient fd' (nobody_listening replies (repeat MSleep n ++ log0)))).
  { assert (Hdeaf : forall fd0 log0,
      ConnectToServer (mkClient fd0 (nobody_listening replies log0))
        = (Ret false, mkClient (-1) (nobody_listening replies log0)))
      by reflexivity.
    induction n as [|n IH]; intros fd0 log0; [exists fd0; reflexivity|].
    cbn [connect_retry_loop]. unfold bind at 1. rewrite Hdeaf. cbn [negb].
    unfold bind at 1.
    change (sleep_for 500 (world (mkClient (-1) (nobody_listening replies log0))))
      with (nobody_listening replies (MSleep :: log0)).
    cbv beta iota. cbn [sockfd_].
    destruct (IH (-1) (MSleep :: log0)) as (fd' & IH1).
    exists fd'. rewrite IH1. do 3 f_equal.
    clear. induction n as [|n IHn]; [reflexivity|].
    cbn [repeat app]. f_equal. exact IHn. }
  intros run.
  assert (Hrun : exists fd',
    run = (Ret (-1),
           mkClient fd' (nobody_listening replies
                           (repeat MSleep MAX_CONNECT_RETRY_COUNT ++ MFork :: log)))).
  { unfold run, StartSnapuserdaemon. unfold bind at 1.
    change (sys_fork (world (mkClient fd (nobody_listening replies log))))
      with (1, nobody_listening replies (MFork :: log)).
    cbv beta iota. cbn [Z.eqb sockfd_].
    exact (Hloop MAX_CONNECT_RETRY_COUNT fd (MFork :: log)). }
  destruct Hrun as (fd' & ->). split; reflexivity.
Qed.

(* ===================================================================== *)
(** * Part XIX: the further statements at concrete inputs                 *)
(* ===================================================================== *)

Lemma one_op_file_healthy (chunk : Z) :
  0 < chunk ->
  healthy (one_op_file (zero_bytes 32) (zero_bytes 32) chunk) /\
  sizeof_CowHeader <= file_size (one_op_file (zero_bytes 32) (zero_bytes 32) chunk).
Proof.
  intros Hc. unfold healthy. cbn [one_op_file cow_file f_seekable f_readable f_chunk].
  repeat split; auto; vm_compute; congruence.
Qed.

Lemma one_op_file_parsed_on (chunk : Z) :
  chunk = 4096 \/ chunk = 8 ->
  let f := one_op_file (zero_bytes 32) (zero_bytes 32) chunk in
  parsed_on f (snd (Parse CowReader_new (open_file f))).
Proof.
  intros Hc f.
  exact (Parse_establishes CowReader_new (open_file f) _
           (one_op_file_parses chunk Hc)).
Qed.

(** X1 at the one-operation container. *)
Lemma Parse_succeeds_iff_witness :
  let f := one_op_file (zero_bytes 32) (zero_bytes 32) 4096 in
  let h := file_header f in
  fst (Parse CowReader_new (open_file f)) = Success <->
  ops_offset h < file_size f /\
  ops_offset h + ops_size h <= file_size f /\
  magic h = kCowMagicNumber /\
  header_size h = sizeof_CowHeader /\
  major_version h = kCowVersionMajor /\
  minor_version h = kCowVersionMinor /\
  header_checksum h = zero_bytes 32.
Proof.
  intros f h.
  destruct (one_op_file_healthy 4096 ltac:(lia)) as (Hh & Hlen).
  exact (Parse_succeeds_iff CowReader_new (open_file f) Hh Hlen).
Defined.

(** X2 at the empty file. *)
Lemma Parse_short_file_witness :
  fst (Parse CowReader_new (open_file empty_file)) = Failure ReadHeaderFailed /\
  error_kind ReadHeaderFailed = IoError /\
  fd_size_ (snd (Parse CowReader_new (open_file empty_file))) = 0.
Proof.
  apply (Parse_short_file CowReader_new (open_file empty_file)).
  - reflexivity.
  - vm_compute. reflexivity.
Defined.

(** X4 at the one-operation container. *)
Lemma parsed_on_is_kept_witness :
  let f := one_op_file (zero_bytes 32) (zero_bytes 32) 8 in
  let r := snd (Parse CowReader_new (open_file f)) in
  parsed_on f r /\ parsed_on f (snd (GetOpIter r)) /\
  parsed_on f (snd (GetRawBytes r 96 16)).
Proof.
  intros f r.
  assert (Hp : parsed_on f r).
  { exact (proj1 (parsed_on_is_kept f r) CowReader_new (open_file f) eq_refl
             (one_op_file_parses 8 (or_intror eq_refl))). }
  destruct (proj2 (parsed_on_is_kept f r) Hp) as (H1 & H2 & _).
  split; [exact Hp|]. split; [exact H1|exact (H2 96 16)].
Defined.

(** X5 at the one-operation container: on the file as parsed, on a
    descriptor that no longer seeks, on one that no longer reads, and on
    the file cut short. *)
Lemma GetOpIter_on_parsed_witness :
  let f := one_op_file (zero_bytes 32) (zero_bytes 32) 8 in
  let r := snd (Parse CowReader_new (open_file f)) in
  let on (g : File) := mkCowReader (open_file g) (header_ r) (fd_size_ r) in
  (fst (GetOpIter r) = inr (CowOpIter_new (slice 112 28 (f_data f)) 28) /\
   fst (GetOpIter (snd (GetOpIter r))) = fst (GetOpIter r)) /\
  (fst (GetOpIter (on (mkFile (f_data f) false true 8))) = inl LseekOpsFailed /\
   fd_log (fd_ (snd (GetOpIter (on (mkFile (f_data f) false true 8)))))
     = [SysLseek 112 SEEK_SET]) /\
  fst (GetOpIter (on (mkFile (f_data f) true false 8))) = inl ReadOpsFailed /\
  fst (GetOpIter (on truncated_file)) = inl ReadOpsFailed.
Proof.
  intros f r on.
  pose proof (one_op_file_parses 8 (or_intror eq_refl)) as HP.
  split; [|split; [|split]].
  - destruct (GetOpIter_on_parsed CowReader_new (open_file f) r (fd_ r) HP)
      as (_ & _ & Hok & Hsame & Hr & Hfile).
    destruct (Hsame Hfile) as (Hs & Ht & Hagain & _).
    rewrite <- Hr in Hagain. split; [|exact Hagain].
    destruct (Hok Hs Ht) as (Hzero & _). rewrite <- Hr in Hzero.
    apply Hzero. vm_compute. reflexivity.
  - destruct (GetOpIter_on_parsed CowReader_new (open_file f) r
                (open_file (mkFile (f_data f) false true 8)) HP) as (Hbad & _).
    destruct (Hbad eq_refl) as (H1 & _ & H2). split; [exact H1|exact H2].
  - destruct (GetOpIter_on_parsed CowReader_new (open_file f) r
                (open_file (mkFile (f_data f) true false 8)) HP) as (_ & Hbad & _).
    apply Hbad; [reflexivity|].
    intros [H0 | (Hrd & _)]; [vm_compute in H0|]; discriminate.
  - destruct (GetOpIter_on_parsed CowReader_new (open_file f) r
                (open_file truncated_file) HP) as (_ & Hbad & _).
    apply Hbad; [reflexivity|].
    intros [H0 | (_ & _ & Hfit)]; [vm_compute in H0; discriminate|].
    vm_compute in Hfit. apply Hfit. reflexivity.
Defined.

(** X6 at a 16-byte request on a source that delivers 8 bytes a read, and
    on descriptors that no longer seek or read. *)
Lemma GetRawBytes_serves_the_payload_witness :
  let f := one_op_file (zero_bytes 32) (zero_bytes 32) 8 in
  let r := snd (Parse CowReader_new (open_file f)) in
  let on (g : File) := mkCowReader (open_file g) (header_ r) (fd_size_ r) in
  (in_payload r 96 16 /\
   exists rd, fst (GetRawBytes r 96 16) = inr rd /\ raw_read rd = 8) /\
  (~ exists rd, fst (GetRawBytes (on (mkFile (f_data f) false true 8)) 96 16) = inr rd) /\
  (~ exists rd, fst (GetRawBytes (on (mkFile (f_data f) true false 8)) 96 16) = inr rd).
Proof.
  intros f r on.
  pose proof (one_op_file_parses 8 (or_intror eq_refl)) as HP.
  assert (H96 : 0 <= 96 < two64) by (unfold two64; lia).
  assert (H16 : 0 <= 16 < two64) by (unfold two64; lia).
  split; [|split].
  - destruct (GetRawBytes_serves_the_payload CowReader_new (open_file f) r 96 16
                (fd_ r) HP H96 H16) as (_ & _ & _ & Hsame & Hr & Hfile).
    destruct (Hsame Hfile) as (_ & _ & Hiff & Hcount).
    rewrite <- Hr in Hiff, Hcount.
    assert (Hin : in_payload r 96 16).
    { unfold in_payload. vm_compute. repeat split; discriminate. }
    split; [exact Hin|]. destruct (proj2 Hiff Hin) as (rd & Hrd).
    exists rd. split; [exact Hrd|]. exact (proj1 (Hcount rd Hrd)).
  - destruct (GetRawBytes_serves_the_payload CowReader_new (open_file f) r 96 16
                (open_file (mkFile (f_data f) false true 8)) HP H96 H16) as (Hiff & _).
    intros Hex. apply Hiff in Hex as (_ & Hs & _). discriminate.
  - destruct (GetRawBytes_serves_the_payload CowReader_new (open_file f) r 96 16
                (open_file (mkFile (f_data f) true false 8)) HP H96 H16) as (Hiff & _).
    intros Hex. apply Hiff in Hex as (_ & _ & Hr). discriminate.
Defined.

(** X7 at the payload of the one operation: the first read into a
    4096-byte buffer, a read into an empty buffer, and a read on a
    descriptor that no longer reads. *)
Lemma CowDataStream_Read_accounts_witness :
  let f := one_op_file (zero_bytes 32) (zero_bytes 32) 8 in
  let r := snd (Parse CowReader_new (open_file f)) in
  let st := CowDataStream_new 96 16 in
  (exists st' r1,
     CowDataStream_Read st r 4096 = (inr (mkRawRead 8 (slice 96 8 (f_data f))), st', r1) /\
     offset_ st' = 104 /\ remaining_ st' = 8 /\ data_length_ st' = 16) /\
  CowDataStream_Read st r 0 = (inr (mkRawRead 0 []), st, r) /\
  (exists r1,
     CowDataStream_Read st
       (mkCowReader (open_file (mkFile (f_data f) true false 8)) (header_ r) (fd_size_ r))
       4096 = (inl ReadFailed, st, r1)).
Proof.
  intros f r st.
  pose proof (one_op_file_parses 8 (or_intror eq_refl)) as HP.
  assert (Hlen : 0 <= 4096 < two64) by (unfold two64; lia).
  assert (Hlen0 : 0 <= 0 < two64) by (unfold two64; lia).
  assert (Hst : stream_in_payload r st).
  { unfold stream_in_payload. vm_compute. repeat split; discriminate. }
  split; [|split].
  - destruct (CowDataStream_Read_accounts CowReader_new (open_file f) r st 4096
                (fd_ r) HP Hlen) as (_ & Hin & _ & Hr & Hfile).
    destruct (Hin Hst eq_refl) as (_ & _ & Hok).
    specialize (Hok eq_refl eq_refl). cbn zeta in Hok. rewrite <- Hr in Hok.
    destruct (CowDataStream_Read st r 4096) as [[res st'] r1].
    destruct Hok as (-> & Ho & Hm & Hd & _ & _ & Hn).
    destruct (Hn Hfile) as (Hn8 & _).
    exists st', r1. rewrite Ho, Hm, Hd, Hn8. repeat split.
  - destruct (CowDataStream_Read_accounts CowReader_new (open_file f) r st 0
                (fd_ r) HP Hlen0) as (Hzero & _ & _ & Hr & _).
    rewrite <- Hr in Hzero. exact (Hzero eq_refl).
  - destruct (CowDataStream_Read_accounts CowReader_new (open_file f) r st 4096
                (open_file (mkFile (f_data f) true false 8)) HP Hlen)
      as (_ & Hin & _).
    destruct (Hin Hst eq_refl) as (_ & Hbad & _).
    destruct (Hbad eq_refl eq_refl) as (r1 & Heq & _). exists r1. exact Heq.
Defined.

(** X8 at the payload of the one operation, read 8 bytes at a time into a
    5-byte buffer. *)
Lemma read_to_end_yields_the_payload_witness :
  let f := one_op_file (zero_bytes 32) (zero_bytes 32) 8 in
  let r := snd (Parse CowReader_new (open_file f)) in
  exists st' r',
    read_to_end (Z.to_nat 16) 5 (CowDataStream_new 96 16) r [] =
      (Some (slice 96 16 (f_data f)), st', r') /\
    remaining_ st' = 0 /\ parsed_on f r'.
Proof.
  intros f r.
  apply (read_to_end_yields_the_payload f r 96 16 5
           (one_op_file_parsed_on 8 (or_intror eq_refl))).
  - unfold two64. lia.
  - lia.
  - vm_compute. discriminate.
  - vm_compute. discriminate.
Defined.

(** X9 at a buffer of two records and one stray byte. *)
Lemma CowOpIter_ignores_partial_record_witness :
  let ops := encode_op one_op ++ encode_op (mkCowOperation 1 0 0 8 7) ++ [x2a] in
  drain (CowOpIter_new ops 57) = Some (stored_records ops 0 2) /\
  List.length (stored_records ops 0 2) = 2%nat /\
  (Done (CowOpIter_new ops 57) = true <-> 57 < sizeof_CowOperation).
Proof.
  intros ops.
  assert (H57 : 0 <= 57 < two64) by (unfold two64; lia).
  exact (CowOpIter_ignores_partial_record ops 57 H57).
Defined.

(** X10 at a buffer of two records. *)
Lemma CowOpIter_checks_never_fire_witness :
  let it := CowOpIter_new (encode_op one_op ++ encode_op one_op) 56 in
  iter_ok it /\
  Get it = Some (decode_op (slice (pos_ it) sizeof_CowOperation (ops_ it))).
Proof.
  intros it.
  assert (H56 : 0 <= 56 < two64) by (unfold two64; lia).
  destruct CowOpIter_checks_never_fire as (Hnew & _ & Hget & _).
  pose proof (Hnew (encode_op one_op ++ encode_op one_op) 56 H56) as Hok.
  split; [exact Hok|]. exact (proj1 (Hget it Hok eq_refl)).
Defined.


(** X12 against a daemon that answers the [start] message with "ok". *)
Lemma InitializeSnapuserd_outcome_witness :
  let s := scripted ["active"; "ok"] in
  let s' := snd (InitializeSnapuserd "cow" "base" "ctrl" s) in
  exists s1 s2 s3 str,
    ConnectToServer s = (Ret true, s1) /\
    Sendmsg "start,cow,base,ctrl" (msg_size "start,cow,base,ctrl") s1 = (Ret 0, s2) /\
    Receivemsg s2 = (Ret str, s3) /\
    found (find str "fail") = false /\
    s' = closed s3.
Proof.
  intros s s'.
  apply (proj1 (proj2 (InitializeSnapuserd_outcome "cow" "base" "ctrl" s) s')).
  vm_compute. reflexivity.
Defined.


(** X14 at a stop of the first-stage daemon. *)
Lemma StopSnapuserd_outcome_witness :
  let s := scripted [] in
  let s' := snd (StopSnapuserd true s) in
  exists s1 s2,
    Sendmsg "stop" (msg_size "stop") s1 = (Ret 0, s2) /\
    s' = closed s2 /\ 0 <= sockfd_ s1 /\
    s1 = mkClient (fst (socket_local_client GetSocketNameFirstStage (world s)))
                  (snd (socket_local_client GetSocketNameFirstStage (world s))).
Proof.
  intros s s'.
  apply (proj2 (StopSnapuserd_outcome true s) s').
  vm_compute. reflexivity.
Defined.
